(** * OSPAC data utilities: the compatibility-matrix splitter, its loader and
    the progress monitor

    A shallow embedding of [split_compatibility_matrix.py] and
    [monitor_progress.py], and the properties of the chunked-document
    partition/reload scheme proved about it.

    Modelling conventions.
    - A JSON value is what [json.load] returns; an object is a Python [dict],
      kept as an association list in insertion order.
    - A file holds either text that [json.load] accepts (recorded as the value
      it parses to) or text that it rejects.  [json.dump] followed by
      [json.load] is the identity on the values handled here.
    - The file system is flat: a finite map from path strings to the
      contents of regular files.  A path string stands for the file it was
      opened with: two spellings of one file ([out/x] and [./out/x], a link
      and its target) are two entries.  Statements about what a run leaves
      on disk are therefore made about the files the run itself opens, under
      the paths it opens them with.
    - Directories are not represented.  [mkdir] is taken to succeed and has
      no visible effect; a set of paths on which [open(path, 'w')] fails
      stands for write failures, and the statements about runs that get past
      [mkdir] assume that the files of the output directory can be written.
    - Python integers are [Z].  [a / b] on integers is the binary64 number
      nearest to the exact quotient, and [math.ceil] is taken of that
      number: a positive quotient of at most 2^-1075 becomes 0.0, so its
      ceiling is 0 where the exact ceiling is 1.  Numerators are lengths of
      lists, below 2^53, for which there is no other difference.
    - The monitor is run against the successive states of its environment,
      one per turn of its loop: what [stat] and [open] find, what the
      console does with a line, whether the user interrupts. *)

From Stdlib Require Import ZArith Lia Ascii DecimalString DecimalN SpecFloat.
From stdpp Require Import gmap strings list sorting.

Local Open Scope Z_scope.

(** ** JSON values and Python dictionaries *)

Local Unset Elimination Schemes.
Inductive json : Type :=
| JNull
| JBool (b : bool)
| JInt (z : Z)
| JFloat (f : spec_float)
| JString (s : string)
| JArray (l : list json)
| JObject (items : list (string * json)).
Local Set Elimination Schemes.

(** A [dict] with string keys, in insertion order. *)
Abbreviation dict := (list (string * json)).

Fixpoint dict_get (k : string) (d : dict) : option json :=
  match d with
  | [] => None
  | (k', v) :: d' => if decide (k = k') then Some v else dict_get k d'
  end.

(** [d[k] = v]: an existing key keeps its position, a new key goes last. *)
Fixpoint dict_set (k : string) (v : json) (d : dict) : dict :=
  match d with
  | [] => [(k, v)]
  | (k', v') :: d' =>
      if decide (k = k') then (k, v) :: d' else (k', v') :: dict_set k v d'
  end.

Definition dict_keys (d : dict) : list string := d.*1.

(** [d.update(other)] for a mapping [other]. *)
Definition dict_update (d other : dict) : dict :=
  foldl (λ acc kv, dict_set kv.1 kv.2 acc) d other.

(** ** Exceptions and outcomes *)

Inductive exn : Type :=
| FileNotFoundError
| PermissionError
| JSONDecodeError
| AttributeError
| KeyError
| TypeError
| ValueError
| ZeroDivisionError
| KeyboardInterrupt.

(** [except Exception] catches everything but [BaseException]-only classes. *)
Definition is_Exception (e : exn) : bool :=
  match e with
  | KeyboardInterrupt => false
  | _ => true
  end.

(** The error taxonomy of the design document, section 7: a missing path is
    [NotFoundError], structurally invalid or mistyped JSON content is
    [MalformedInputError], a failed write is [IOError].  The two remaining
    exceptions have no place in it. *)
Inductive error_kind : Type :=
| NotFoundError
| MalformedInputError
| IOError.

Definition error_class (e : exn) : option error_kind :=
  match e with
  | FileNotFoundError => Some NotFoundError
  | PermissionError => Some IOError
  | JSONDecodeError | AttributeError | KeyError | TypeError | ValueError =>
      Some MalformedInputError
  | ZeroDivisionError | KeyboardInterrupt => None
  end.

(** The result of running a piece of Python: a value, an exception, or
    [Unmodelled] for the one runtime behaviour this development does not
    describe ([dict.update] applied to a non-empty JSON array, where Python
    follows its sequence-of-pairs protocol). *)
Inductive outcome (A : Type) : Type :=
| Returned (a : A)
| Raised (e : exn)
| Unmodelled.
Arguments Returned {A} a.
Arguments Raised {A} e.
Arguments Unmodelled {A}.

Global Instance outcome_ret : MRet outcome := λ A a, Returned a.
Global Instance outcome_bind : MBind outcome := λ A B f m,
  match m with
  | Returned a => f a
  | Raised e => Raised e
  | Unmodelled => Unmodelled
  end.

(** ** Dynamically typed accesses *)

(** [v.get(k, default)]: only a dict has the attribute. *)
Definition py_dot_get (v : json) (k : string) (fallback : json) : outcome json :=
  match v with
  | JObject d => Returned (default fallback (dict_get k d))
  | _ => Raised AttributeError
  end.

(** [v.keys()]. *)
Definition py_dot_keys (v : json) : outcome (list string) :=
  match v with
  | JObject d => Returned (dict_keys d)
  | _ => Raised AttributeError
  end.

(** [v[k]] for a string [k]: a dict is looked up; lists and strings want
    integer indices, the other values are not subscriptable. *)
Definition py_getitem (v : json) (k : string) : outcome json :=
  match v with
  | JObject d =>
      match dict_get k d with
      | Some x => Returned x
      | None => Raised KeyError
      end
  | _ => Raised TypeError
  end.

(** [for x in v]: a list yields its elements, a dict its keys, a string its
    characters (one-byte strings stand for them here). *)
Definition py_iter (v : json) : outcome (list json) :=
  match v with
  | JArray l => Returned l
  | JObject d => Returned (JString <$> dict_keys d)
  | JString s => Returned ((λ c, JString (String c "")) <$> String.list_ascii_of_string s)
  | _ => Raised TypeError
  end.

(** [d.update(v)].  A mapping is merged key by key.  Any other iterable is
    read as a sequence of pairs: an empty one leaves [d] as it is, and the
    first character of a string is a sequence of length one, not two. *)
Definition py_update (d : dict) (v : json) : outcome dict :=
  match v with
  | JObject other => Returned (dict_update d other)
  | JString "" | JArray [] => Returned d
  | JString _ => Raised ValueError
  | JArray _ => Unmodelled
  | _ => Raised TypeError
  end.

(** ** Built-ins used by the splitter *)

(** [sorted] on strings: ascending code-point order, which on UTF-8 text is
    the byte-wise lexicographic order. *)
Definition sorted (l : list string) : list string := merge_sort String.le l.

(** [range(n)]. *)
Definition py_range (n : Z) : list Z := Z.of_nat <$> seq 0 (Z.to_nat n).

(** [math.ceil(a / b)] on integers.  The quotient [a / b] is correctly
    rounded to binary64, ties to even.  The least positive binary64 number is
    2^-1074, so an exact quotient [q] with [0 < q ≤ 2^-1075] is rounded to
    [0.0], whose ceiling is [0] and not [1]; a negative quotient that close to
    zero is rounded to [-0.0], whose ceiling is [0] as it should.  For
    [|a| < 2^53] rounding changes the ceiling in no other case: when [q] is
    not an integer it differs from the nearest integer [m ≠ 0] by at least
    [1 / |b|], which is more than half the distance between [m] and the
    binary64 numbers next to it. *)
Definition underflow_scale : Z := 2 ^ 1075.

Definition underflows (a b : Z) : bool :=
  bool_decide ((0 < a ∧ 0 < b ∨ a < 0 ∧ b < 0) ∧
               Z.abs a * underflow_scale ≤ Z.abs b).

Definition ceil_of_quotient (a b : Z) : Z :=
  if underflows a b then 0 else - ((- a) `div` b).

Definition math_ceil_div (a b : Z) : outcome Z :=
  if decide (b = 0) then Raised ZeroDivisionError
  else Returned (ceil_of_quotient a b).

(** [a / b] in a printed report: the float it yields is not kept. *)
Definition true_div (a b : Z) : outcome unit :=
  if decide (b = 0) then Raised ZeroDivisionError else Returned tt.

(** [l[start:stop]], negative bounds counting from the end. *)
Definition slice_bound (len i : Z) : Z :=
  if decide (i < 0) then Z.max 0 (i + len) else Z.min i len.

Definition py_slice {A} (l : list A) (start stop : Z) : list A :=
  let len := Z.of_nat (length l) in
  let a := slice_bound len start in
  let b := slice_bound len stop in
  take (Z.to_nat (b - a)) (drop (Z.to_nat a) l).

(** [f"{z:03d}"]: decimal digits, zero-padded to width three, sign included. *)
Definition decimal (n : N) : string := NilEmpty.string_of_uint (N.to_uint n).

Fixpoint zeros (n : nat) : string :=
  match n with
  | O => ""
  | S n' => String "0"%char (zeros n')
  end.

Definition zfill (width : nat) (s : string) : string :=
  zeros (width - String.length s) +:+ s.

Definition format_03d (z : Z) : string :=
  if decide (z < 0) then "-" +:+ zfill 2 (decimal (Z.to_N (- z)))
  else zfill 3 (decimal (Z.to_N z)).

(** [os.path.join(a, b)] (posixpath). *)
Definition starts_with_sep (s : string) : bool :=
  match s with
  | String "/"%char _ => true
  | _ => false
  end.

Fixpoint ends_with_sep (s : string) : bool :=
  match s with
  | "" => false
  | String c "" => bool_decide (c = "/"%char)
  | String _ s' => ends_with_sep s'
  end.

Definition path_join (a b : string) : string :=
  if starts_with_sep b then b
  else if bool_decide (a = "") || ends_with_sep a then a +:+ b
  else a +:+ "/" +:+ b.

(** [os.path.join] with a second argument taken from a JSON document. *)
Definition py_path_join (a : string) (b : json) : outcome string :=
  match b with
  | JString f => Returned (path_join a f)
  | _ => Raised TypeError
  end.

(** ** The file system and the effect monad *)

Inductive content : Type :=
| Json (v : json)
| NotJson.

Inductive event : Type :=
| Wrote (path : string) (v : json).

(** [byte_size] is the length in bytes of a stored file; the programs only
    print it. *)
Record world : Type := World {
  disk : gmap string content;
  unwritable : gset string;
  byte_size : content → Z;
  trace : list event
}.

(** State over [world], with exceptions: effects made before an exception
    stay in the world. *)
Definition M (A : Type) : Type := world → world * outcome A.

Global Instance M_ret : MRet M := λ A a w, (w, Returned a).
Global Instance M_bind : MBind M := λ A B f m w,
  match m w with
  | (w', Returned a) => f a w'
  | (w', Raised e) => (w', Raised e)
  | (w', Unmodelled) => (w', Unmodelled)
  end.

Definition lift {A} (o : outcome A) : M A := λ w, (w, o).

(** [with open(path, 'r') as f: json.load(f)]. *)
Definition read_json (path : string) : M json := λ w,
  match disk w !! path with
  | None => (w, Raised FileNotFoundError)
  | Some NotJson => (w, Raised JSONDecodeError)
  | Some (Json v) => (w, Returned v)
  end.

(** [with open(path, 'w') as f: json.dump(v, f, indent=2)].  The file
    written is the entry of [path] as it is spelled. *)
Definition write_json (path : string) (v : json) : M unit := λ w,
  if decide (path ∈ unwritable w) then (w, Raised PermissionError)
  else (World (<[path := Json v]> (disk w)) (unwritable w) (byte_size w)
              (trace w ++ [Wrote path v]), Returned tt).

(** [os.path.getsize(path)]. *)
Definition getsize (path : string) : M Z := λ w,
  match disk w !! path with
  | None => (w, Raised FileNotFoundError)
  | Some c => (w, Returned (byte_size w c))
  end.

(** [Path(path).mkdir(parents=True, exist_ok=True)].  Directories are not
    part of the world: the call is taken to succeed, and it shows in no
    file.  In the program it creates [path] and its parents, and it raises
    [FileExistsError] when [path] is a regular file, [PermissionError] when
    a parent may not be written to; in both cases no file under [path] can
    be written either.  The statements about runs that get past this call
    assume that files of the output directory can be written. *)
Definition mkdir (path : string) : M unit := mret tt.

(** [for x in xs: s = body(x, s)]. *)
Fixpoint for_each `{MBind m, MRet m} {A S : Type}
    (xs : list A) (body : A → S → m S) (s : S) : m S :=
  match xs with
  | [] => mret s
  | x :: xs' => s' ← body x s; for_each xs' body s'
  end.

(** ** Data model *)

Record chunk_descriptor : Type := ChunkDescriptor {
  desc_chunk_id : Z;
  file : string;
  start_license : option string;
  end_license : option string;
  license_count : Z
}.

Record chunk_file : Type := ChunkFile {
  chunk_id : Z;
  start_index : Z;
  end_index : Z;
  licenses : list string;
  compatibility : dict
}.

Record index_file : Type := IndexFile {
  index_version : json;
  index_generated : json;
  index_total_licenses : Z;
  index_chunk_size : Z;
  index_num_chunks : Z;
  chunks : list chunk_descriptor
}.

Record document : Type := Document {
  doc_version : json;
  doc_generated : json;
  doc_total_licenses : json;
  doc_compatibility : dict
}.

(** The dict literals of the source, as [json.dump] sees them. *)
Definition json_of_license (o : option string) : json :=
  match o with
  | Some s => JString s
  | None => JNull
  end.

Definition json_of_descriptor (d : chunk_descriptor) : json :=
  JObject [("chunk_id", JInt (desc_chunk_id d));
           ("file", JString (file d));
           ("start_license", json_of_license (start_license d));
           ("end_license", json_of_license (end_license d));
           ("license_count", JInt (license_count d))].

Definition json_of_chunk (c : chunk_file) : json :=
  JObject [("chunk_id", JInt (chunk_id c));
           ("start_index", JInt (start_index c));
           ("end_index", JInt (end_index c));
           ("licenses", JArray (JString <$> licenses c));
           ("compatibility", JObject (compatibility c))].

Definition json_of_index (i : index_file) : json :=
  JObject [("version", index_version i);
           ("generated", index_generated i);
           ("total_licenses", JInt (index_total_licenses i));
           ("chunk_size", JInt (index_chunk_size i));
           ("num_chunks", JInt (index_num_chunks i));
           ("chunks", JArray (json_of_descriptor <$> chunks i))].

(** ** split_compatibility_matrix.py *)

Definition index_name : string := "compatibility_index.json".

Definition chunk_name (chunk_idx : Z) : string :=
  "compatibility_chunk_" +:+ format_03d chunk_idx +:+ ".json".

(** One turn of the loop over [range(num_chunks)]: build the chunk, save it,
    append its descriptor to [index["chunks"]]. *)
Definition split_chunk (output_dir : string) (license_ids : list string)
    (compatibility : json) (chunk_size total_licenses : Z)
    (chunk_idx : Z) (index_chunks : list chunk_descriptor)
    : M (list chunk_descriptor) :=
  let start_idx := chunk_idx * chunk_size in
  let end_idx := Z.min ((chunk_idx + 1) * chunk_size) total_licenses in
  let chunk_licenses := py_slice license_ids start_idx end_idx in
  chunk_compatibility ← lift (for_each chunk_licenses (λ license_id acc,
      v ← py_getitem compatibility license_id;
      mret (dict_set license_id v acc)) []);
  let chunk_data :=
    {| chunk_id := chunk_idx;
       start_index := start_idx;
       end_index := end_idx;
       licenses := chunk_licenses;
       compatibility := chunk_compatibility |} in
  let chunk_file := chunk_name chunk_idx in
  let chunk_path := path_join output_dir chunk_file in
  write_json chunk_path (json_of_chunk chunk_data);;
  mret (index_chunks ++
        [{| desc_chunk_id := chunk_idx;
            file := chunk_file;
            start_license := head chunk_licenses;
            end_license := last chunk_licenses;
            license_count := Z.of_nat (length chunk_licenses) |}]).

Definition split_compatibility_matrix
    (input_file output_dir : string) (chunk_size : Z) : M unit :=
  data ← read_json input_file;
  version ← lift (py_dot_get data "version" (JString "1.0"));
  generated ← lift (py_dot_get data "generated" JNull);
  _ ← lift (py_dot_get data "total_licenses" (JInt 0));
  compatibility ← lift (py_dot_get data "compatibility" (JObject []));
  keys ← lift (py_dot_keys compatibility);
  let license_ids := sorted keys in
  let total_licenses := Z.of_nat (length license_ids) in
  mkdir output_dir;;
  num_chunks ← lift (math_ceil_div total_licenses chunk_size);
  index_chunks ← for_each (py_range num_chunks)
    (split_chunk output_dir license_ids compatibility chunk_size total_licenses)
    [];
  let index :=
    {| index_version := version;
       index_generated := generated;
       index_total_licenses := total_licenses;
       index_chunk_size := chunk_size;
       index_num_chunks := num_chunks;
       chunks := index_chunks |} in
  let index_path := path_join output_dir index_name in
  write_json index_path (json_of_index index);;
  original_size ← getsize input_file;
  lift (true_div original_size (1024 * 1024));;
  total_chunk_size ← for_each index_chunks (λ chunk_info total,
      size ← getsize (path_join output_dir (file chunk_info));
      mret (total + size)) 0;
  lift (true_div total_chunk_size (1024 * 1024));;
  lift (true_div total_chunk_size num_chunks).

Definition load_split_matrix (compatibility_dir : string) : M document :=
  let index_path := path_join compatibility_dir index_name in
  index ← read_json index_path;
  version ← lift (py_getitem index "version");
  generated ← lift (py_getitem index "generated");
  total_licenses ← lift (py_getitem index "total_licenses");
  index_chunks ← lift (py_getitem index "chunks" ≫= py_iter);
  full_compatibility ← for_each index_chunks (λ chunk_info acc,
      chunk_file ← lift (py_getitem chunk_info "file");
      chunk_path ← lift (py_path_join compatibility_dir chunk_file);
      chunk_data ← read_json chunk_path;
      chunk_compatibility ← lift (py_getitem chunk_data "compatibility");
      lift (py_update acc chunk_compatibility)) [];
  mret {| doc_version := version;
          doc_generated := generated;
          doc_total_licenses := total_licenses;
          doc_compatibility := full_compatibility |}.

(** ** monitor_progress.py *)

(** What one turn of the polling loop finds, and what it can do.  [stat] on
    the progress file finds nothing ([Missing]), or fails because a
    directory on the way to it may not be searched ([Inaccessible]), or
    succeeds; in that case [open] may still be refused ([Unreadable]). *)
Inductive file_state : Type :=
| Missing
| Inaccessible
| Unreadable
| Readable (c : content).

(** [data/licenses/spdx]: not there, out of reach in the same way, or a
    directory in which [glob("*.yaml")] finds so many entries. *)
Inductive dir_state : Type :=
| NoDir
| DirInaccessible
| Dir (yaml_files : Z).

Inductive interrupt_point : Type :=
| DuringRead
| DuringSleep.

Inductive monitor_event : Type :=
| PrintProgress (total last_updated : json)
| PrintFiles (actual_count : Z)
| PrintError (e : exn)
| PrintWaiting
| PrintStopped
| Sleep (seconds : Z).

(** [console_accepts] says which lines the standard output takes.  It
    refuses text that it cannot encode (a string with a lone surrogate, on a
    strict UTF-8 stream) and everything once it is closed. *)
Record monitor_env : Type := MonitorEnv {
  progress_file : file_state;
  spdx_dir : dir_state;
  console_accepts : monitor_event → bool;
  interrupt : option interrupt_point
}.

(** Output so far, and how the code ended. *)
Definition Mon (A : Type) : Type := (list monitor_event * outcome A)%type.

Global Instance Mon_ret : MRet Mon := λ A a, ([], Returned a).
Global Instance Mon_bind : MBind Mon := λ A B f m,
  match m with
  | (out, Returned a) => let '(out', r) := f a in (out ++ out', r)
  | (out, Raised e) => (out, Raised e)
  | (out, Unmodelled) => (out, Unmodelled)
  end.

Definition emit (ev : monitor_event) : Mon unit := ([ev], Returned tt).
Definition pure_step {A} (o : outcome A) : Mon A := ([], o).

(** [print(line, ...)]: a line that the console refuses raises
    [UnicodeEncodeError] or, on a closed stream, a plain [ValueError]; the
    first is a subclass of the second. *)
Definition py_print (env : monitor_env) (line : monitor_event) : Mon unit :=
  if console_accepts env line then emit line else pure_step (Raised ValueError).

(** [try: body  except Exception as e: handler(e)]. *)
Definition try_except {A} (body : Mon A) (handler : exn → Mon A) : Mon A :=
  match body with
  | (out, Raised e) =>
      if is_Exception e then let '(out', r) := handler e in (out ++ out', r)
      else (out, Raised e)
  | finished => finished
  end.

(** [path.exists()]: the answer of [stat].  A path that is not there is
    absent; any other failure of [stat] is raised again. *)
Definition file_exists (f : file_state) : outcome bool :=
  match f with
  | Missing => Returned false
  | Inaccessible => Raised PermissionError
  | Unreadable | Readable _ => Returned true
  end.

Definition dir_exists (d : dir_state) : outcome bool :=
  match d with
  | NoDir => Returned false
  | DirInaccessible => Raised PermissionError
  | Dir _ => Returned true
  end.

(** [len(list(d.glob("*.yaml")))]. *)
Definition yaml_count (d : dir_state) : Z :=
  match d with
  | Dir yaml_files => yaml_files
  | _ => 0
  end.

(** [with open(progress_file, 'r') as f: json.load(f)]. *)
Definition open_and_load (env : monitor_env) : outcome json :=
  match interrupt env with
  | Some DuringRead => Raised KeyboardInterrupt
  | _ =>
      match progress_file env with
      | Missing => Raised FileNotFoundError
      | Inaccessible | Unreadable => Raised PermissionError
      | Readable NotJson => Raised JSONDecodeError
      | Readable (Json v) => Returned v
      end
  end.

(** The first [n] characters of UTF-8 text: a byte in 128..191 continues the
    character before it. *)
Definition is_continuation (c : ascii) : bool :=
  let n := N_of_ascii c in (128 <=? n)%N && (n <? 192)%N.

Fixpoint take_chars (n : nat) (s : string) : string :=
  match s with
  | "" => ""
  | String c s' =>
      if is_continuation c then String c (take_chars n s')
      else match n with
           | O => ""
           | S n' => String c (take_chars n' s')
           end
  end.

(** [v[:n]]: strings and lists are sliced; a dict takes the slice for a key
    ([TypeError] before Python 3.12, [KeyError] since); nothing else is
    subscriptable. *)
Definition py_prefix (v : json) (n : nat) : outcome json :=
  match v with
  | JString s => Returned (JString (take_chars n s))
  | JArray l => Returned (JArray (take n l))
  | _ => Raised TypeError
  end.

(** [n != v] for an [int] [n]: numbers compare by value, [True] is 1. *)
Definition float_eq_int (f : spec_float) (n : Z) : bool :=
  match f with
  | S754_zero _ => bool_decide (n = 0)
  | S754_finite s m e =>
      let v := if s then Z.neg m else Z.pos m in
      if decide (0 ≤ e) then bool_decide (n = v * 2 ^ e)
      else bool_decide (n * 2 ^ (- e) = v)
  | _ => false
  end.

Definition py_int_ne (n : Z) (v : json) : bool :=
  match v with
  | JInt z => negb (bool_decide (n = z))
  | JBool b => negb (bool_decide (n = if b then 1 else 0))
  | JFloat f => negb (float_eq_int f n)
  | _ => true
  end.

(** The body of the [try] block. *)
Definition report_progress (env : monitor_env) : Mon unit :=
  progress ← pure_step (open_and_load env);
  total ← pure_step (py_dot_get progress "total_processed" (JInt 0));
  last_updated ← pure_step (py_dot_get progress "last_updated" (JString "Unknown"));
  shown ← pure_step (py_prefix last_updated 19);
  py_print env (PrintProgress total shown);;
  present ← pure_step (dir_exists (spdx_dir env));
  if present : bool then
    let actual_count := yaml_count (spdx_dir env) in
    if py_int_ne actual_count total then py_print env (PrintFiles actual_count)
    else mret tt
  else mret tt.

(** [time.sleep(seconds)]. *)
Definition sleep (env : monitor_env) (seconds : Z) : Mon unit :=
  match interrupt env with
  | Some DuringSleep => ([Sleep seconds], Raised KeyboardInterrupt)
  | _ => emit (Sleep seconds)
  end.

(** One turn of [while True]: the test of [if] is evaluated outside the
    [try] block, and so are the two messages printed outside it. *)
Definition monitor_iteration (env : monitor_env) : Mon unit :=
  present ← pure_step (file_exists (progress_file env));
  (if present : bool
   then try_except (report_progress env) (λ e, py_print env (PrintError e))
   else py_print env PrintWaiting);;
  sleep env 5.

(** The loop, run against the successive environments of its turns.  When
    they are used up the loop is still [Polling]. *)
Inductive loop_status : Type :=
| Polling
| Escaped (e : exn)
| NotModelled.

Fixpoint monitor_progress (envs : list monitor_env)
    : list monitor_event * loop_status :=
  match envs with
  | [] => ([], Polling)
  | env :: rest =>
      match monitor_iteration env with
      | (out, Returned _) =>
          let '(out', status) := monitor_progress rest in (out ++ out', status)
      | (out, Raised e) => (out, Escaped e)
      | (out, Unmodelled) => (out, NotModelled)
      end
  end.

(** ** The script entry points *)

(** [split_compatibility_matrix.py] run as a script: split with the default
    arguments, load the result back, report how many licenses it holds. *)
Definition split_compatibility_matrix_main : M Z :=
  split_compatibility_matrix "data/compatibility_matrix.json" "data/compatibility" 100;;
  reconstructed ← load_split_matrix "data/compatibility";
  mret (Z.of_nat (length (doc_compatibility reconstructed))).

(** [monitor_progress.py] run as a script: the loop, inside
    [try: ... except KeyboardInterrupt: print("Monitoring stopped.")].
    [final] is the environment in which the handler runs. *)
Inductive script_status : Type :=
| Running
| Exited
| Crashed (e : exn)
| ScriptNotModelled.

Definition monitor_progress_main (envs : list monitor_env) (final : monitor_env)
    : list monitor_event * script_status :=
  match monitor_progress envs with
  | (out, Polling) => (out, Running)
  | (out, Escaped KeyboardInterrupt) =>
      match py_print final PrintStopped with
      | (out', Returned _) => (out ++ out', Exited)
      | (out', Raised e) => (out ++ out', Crashed e)
      | (out', Unmodelled) => (out ++ out', ScriptNotModelled)
      end
  | (out, Escaped e) => (out, Crashed e)
  | (out, NotModelled) => (out, ScriptNotModelled)
  end.

(** ** Notions used to state the properties *)

(** The entries of [d] for the keys [ids], in the order of [ids]. *)
Definition select (d : dict) (ids : list string) : dict :=
  omap (λ id, pair id <$> dict_get id d) ids.

(** Reading the digits back: leading zeros do not change the number. *)
Definition read_decimal (s : string) : option N :=
  N.of_uint <$> NilEmpty.uint_of_string s.

(** What [os.path.join] puts in front of a relative second argument. *)
Definition dir_prefix (a : string) : string :=
  if bool_decide (a = "") || ends_with_sep a then a else a +:+ "/".

(** The [i]-th group of [size] consecutive elements of [l]. *)
Definition group {A} (size : nat) (l : list A) (i : nat) : list A :=
  take size (drop (i * size) l).

(** The disk after a sequence of successful writes, and the world that has
    gone through them. *)
Definition apply_writes (evs : list event) (m : gmap string content)
    : gmap string content :=
  foldl (λ m ev, match ev with Wrote p v => <[p := Json v]> m end) m evs.

Definition record (w : world) (evs : list event) : world :=
  World (apply_writes evs (disk w)) (unwritable w) (byte_size w) (trace w ++ evs).

Definition event_path (ev : event) : string :=
  match ev with Wrote p _ => p end.

(** What the loop computes for chunk [i], and what it records of it in the
    index. *)
Definition nth_chunk (ids : list string) (compat : dict) (k : Z) (i : nat)
    : chunk_file :=
  let g := group (Z.to_nat k) ids i in
  {| chunk_id := Z.of_nat i;
     start_index := Z.of_nat i * k;
     end_index := Z.min ((Z.of_nat i + 1) * k) (Z.of_nat (length ids));
     licenses := g;
     compatibility := select compat g |}.

Definition descriptor_of (c : chunk_file) : chunk_descriptor :=
  {| desc_chunk_id := chunk_id c;
     file := chunk_name (chunk_id c);
     start_license := head (licenses c);
     end_license := last (licenses c);
     license_count := Z.of_nat (length (licenses c)) |}.

(** The writes of a chunk and of the index. *)
Definition chunk_write (dir : string) (c : chunk_file) : event :=
  Wrote (path_join dir (chunk_name (chunk_id c))) (json_of_chunk c).

Definition index_write (dir : string) (i : index_file) : event :=
  Wrote (path_join dir index_name) (json_of_index i).

(** A directory in which every file can be written. *)
Definition writable_dir (w : world) (dir : string) : Prop :=
  ∀ f, path_join dir f ∉ unwritable w.

(** The number of chunks, the chunks, the index and the writes of a run on a
    document whose compatibility mapping is [compat], with chunk size [k]. *)
Definition chunk_count (compat : dict) (k : Z) : nat :=
  Z.to_nat (ceil_of_quotient (Z.of_nat (length (dict_keys compat))) k).

Definition all_chunks (compat : dict) (k : Z) : list chunk_file :=
  nth_chunk (sorted (dict_keys compat)) compat k <$> seq 0 (chunk_count compat k).

Definition the_index (data compat : dict) (k : Z) : index_file :=
  {| index_version := default (JString "1.0") (dict_get "version" data);
     index_generated := default JNull (dict_get "generated" data);
     index_total_licenses := Z.of_nat (length (dict_keys compat));
     index_chunk_size := k;
     index_num_chunks := ceil_of_quotient (Z.of_nat (length (dict_keys compat))) k;
     chunks := descriptor_of <$> all_chunks compat k |}.

Definition run_events (dir : string) (data compat : dict) (k : Z) : list event :=
  (chunk_write dir <$> all_chunks compat k) ++ [index_write dir (the_index data compat k)].

(** A computation that leaves the world as it found it. *)
Definition stateless {A} (m : M A) : Prop := ∀ w, (m w).1 = w.

(** A write to a chunk file of [dir]. *)
Definition chunk_event (dir : string) (ev : event) : Prop :=
  ∃ i, event_path ev = path_join dir (chunk_name i).

(** In [evs] a write of the index is the last write, and the files that
    index describes are written before it. *)
Definition index_last (dir : string) (evs : list event) : Prop :=
  ∀ evs1 v evs2, evs = evs1 ++ Wrote (path_join dir index_name) v :: evs2 →
    evs2 = [] ∧
    ∃ idx, v = json_of_index idx ∧
      ∀ d, d ∈ chunks idx → path_join dir (file d) ∈ event_path <$> evs1.

(** Malformed input documents, for the splitter. *)
Inductive malformed_input : content → Prop :=
| invalid_json : malformed_input NotJson
| document_not_a_mapping (v : json) :
    (∀ d, v ≠ JObject d) → malformed_input (Json v)
| compatibility_not_a_mapping (data : dict) (c : json) :
    dict_get "compatibility" data = Some c → (∀ d, c ≠ JObject d) →
    malformed_input (Json (JObject data)).

(** An index that has the fields the loader reads, and lists [infos]. *)
Definition index_lists (index : json) (infos : list json) : Prop :=
  (∃ v, py_getitem index "version" = Returned v) ∧
  (∃ g, py_getitem index "generated" = Returned g) ∧
  (∃ t, py_getitem index "total_licenses" = Returned t) ∧
  py_getitem index "chunks" ≫= py_iter = Returned infos.

(** A chunk descriptor whose file is on disk and holds a [compatibility]
    mapping, and one whose file is not on disk. *)
Definition loads_fine (dir : string) (w : world) (info : json) : Prop :=
  ∃ f chunk m,
    py_getitem info "file" = Returned (JString f) ∧
    disk w !! path_join dir f = Some (Json chunk) ∧
    py_getitem chunk "compatibility" = Returned (JObject m).

Definition refers_to_missing (dir : string) (w : world) (info : json) : Prop :=
  ∃ f, py_getitem info "file" = Returned (JString f) ∧
       disk w !! path_join dir f = None.

(** A turn of the monitor in which the code outside the [try] block does
    not fail: [progress_file.exists()] returns, and the console takes the
    two messages that are printed outside the block. *)
Definition outside_try_ok (env : monitor_env) : Prop :=
  progress_file env ≠ Inaccessible ∧
  console_accepts env PrintWaiting = true ∧
  ∀ e, console_accepts env (PrintError e) = true.

(** A piece of the monitor that ends, if it raises, with an [Exception]. *)
Definition tame {A} (m : Mon A) : Prop :=
  match m.2 with
  | Returned _ => True
  | Raised e => is_Exception e = true
  | Unmodelled => False
  end.

(** ** Concrete inputs *)

(** The document of the design document's example, read from [in.json] in a
    world where every path is writable; the same document with its keys
    inserted in another order; and a document without licenses. *)
Definition example_compat : dict :=
  [("MIT", JInt 1); ("Apache-2.0", JInt 2); ("GPL-3.0", JInt 3)].

Definition example_data : dict :=
  [("version", JString "2.0"); ("compatibility", JObject example_compat)].

Definition example_world : world :=
  World {["in.json" := Json (JObject example_data)]} ∅ (λ _, 0) [].

Definition reordered_compat : dict :=
  [("GPL-3.0", JInt 3); ("MIT", JInt 1); ("Apache-2.0", JInt 2)].

Definition reordered_data : dict :=
  [("compatibility", JObject reordered_compat); ("version", JString "2.0")].

Definition reordered_world : world :=
  World {["other.json" := Json (JObject reordered_data)]} ∅ (λ _, 0) [].

Definition empty_data : dict := [("version", JString "2.0"); ("compatibility", JObject [])].

Definition empty_world : world :=
  World {["in.json" := Json (JObject empty_data)]} ∅ (λ _, 0) [].

Definition mistyped_data : dict := [("compatibility", JArray [JString "MIT"])].

Definition mistyped_world : world :=
  World {["in.json" := Json (JObject mistyped_data)]} ∅ (λ _, 0) [].

(** A chunk size that the binary64 quotient cannot carry, and the example
    after a run with it. *)
Definition huge_chunk_size : Z := 10 ^ 400.

Definition huge_split_world : world :=
  (split_compatibility_matrix "in.json" "out" huge_chunk_size example_world).1.

(** The example after a run with chunk size 2, then with the second chunk
    file lost, then with the first chunk file overwritten by text that is
    not JSON as well. *)
Definition split_world : world :=
  (split_compatibility_matrix "in.json" "out" 2 example_world).1.

Definition lost_chunk_world : world :=
  World (delete "out/compatibility_chunk_001.json" (disk split_world))
        ∅ (λ _, 0) (trace split_world).

Definition torn_world : world :=
  World (<["out/compatibility_chunk_000.json" := NotJson]> (disk lost_chunk_world))
        ∅ (λ _, 0) (trace split_world).

(** Turns of the monitor, all with a console that takes every line: no
    progress file yet, a file that is not JSON, a progress record whose
    [last_updated] is a number, a well-formed one; then a turn in which the
    [data] directory may not be searched, and one in which the user
    interrupts the sleep. *)
Definition any_line : monitor_event → bool := λ _, true.

Definition example_turns : list monitor_env :=
  [MonitorEnv Missing NoDir any_line None;
   MonitorEnv (Readable NotJson) NoDir any_line None;
   MonitorEnv (Readable (Json (JObject [("total_processed", JInt 3);
                                        ("last_updated", JInt 5)]))) (Dir 3) any_line None;
   MonitorEnv (Readable (Json (JObject [("total_processed", JInt 10);
                                        ("last_updated", JString "2024-01-01T10:00:00.123456")])))
              (Dir 9) any_line None].

Definition inaccessible_turn : monitor_env :=
  MonitorEnv Inaccessible NoDir any_line None.

Definition interrupted_turn : monitor_env :=
  MonitorEnv Missing NoDir any_line (Some DuringSleep).

(** ** Notions used by the further properties *)

(** What [split_compatibility_matrix] does once its loop has returned the
    chunk descriptors: save the index, report the sizes. *)
Definition finish_run (input_file output_dir : string) (version generated : json)
    (total_licenses chunk_size num_chunks : Z)
    (index_chunks : list chunk_descriptor) : M unit :=
  write_json (path_join output_dir index_name)
    (json_of_index
       {| index_version := version;
          index_generated := generated;
          index_total_licenses := total_licenses;
          index_chunk_size := chunk_size;
          index_num_chunks := num_chunks;
          chunks := index_chunks |});;
  original_size ← getsize input_file;
  lift (true_div original_size (1024 * 1024));;
  total_chunk_size ← for_each index_chunks (λ chunk_info total,
      size ← getsize (path_join output_dir (file chunk_info));
      mret (total + size)) 0;
  lift (true_div total_chunk_size (1024 * 1024));;
  lift (true_div total_chunk_size num_chunks).

(** A path that the splitter may write in [dir]. *)
Definition output_path (dir : string) (p : string) : Prop :=
  p = path_join dir index_name ∨ ∃ i, p = path_join dir (chunk_name i).

(** A chunk descriptor of an index whose file is on disk and holds the
    compatibility mapping [m]. *)
Definition holds_mapping (dir : string) (w : world) (info : json) (m : dict) : Prop :=
  ∃ f chunk,
    py_getitem info "file" = Returned (JString f) ∧
    disk w !! path_join dir f = Some (Json chunk) ∧
    py_getitem chunk "compatibility" = Returned (JObject m).


(** The example world with the file of chunk 1 write-protected, and with the
    index write-protected. *)
Definition locked_chunk_world : world :=
  World {["in.json" := Json (JObject example_data)]}
        {["out/compatibility_chunk_001.json"]} (λ _, 0) [].

Definition locked_index_world : world :=
  World {["in.json" := Json (JObject example_data)]}
        {["out/compatibility_index.json"]} (λ _, 0) [].

(** A directory edited by hand: its index lists two chunk files that both
    have an entry for [MIT]. *)
Definition overlapping_index : json :=
  JObject [("version", JString "1.0"); ("generated", JNull);
           ("total_licenses", JInt 2);
           ("chunks", JArray [JObject [("file", JString "a.json")];
                              JObject [("file", JString "b.json")]])].

Definition overlapping_world : world :=
  World (<["out/compatibility_index.json" := Json overlapping_index]>
         (<["out/a.json" := Json (JObject [("compatibility",
               JObject [("MIT", JInt 1); ("GPL-3.0", JInt 3)])])]>
         (<["out/b.json" := Json (JObject [("compatibility",
               JObject [("MIT", JInt 7)])])]> ∅)))
        ∅ (λ _, 0) [].

(** Index files the loader cannot use: text that is not JSON, a value that
    lacks one of the four fields read (or is not a mapping at all), a
    [chunks] field that cannot be iterated. *)
Inductive malformed_index : content → Prop :=
| index_not_json : malformed_index NotJson
| index_lacks_field (v : json) (field : string) :
    field ∈ ["version"; "generated"; "total_licenses"; "chunks"] →
    (∀ x, py_getitem v field ≠ Returned x) →
    malformed_index (Json v)
| index_chunks_not_iterable (v cs : json) :
    py_getitem v "chunks" = Returned cs →
    (∀ l, py_iter cs ≠ Returned l) →
    malformed_index (Json v).

(** A directory whose index has no [chunks] field. *)
Definition truncated_index : json :=
  JObject [("version", JString "1.0"); ("generated", JNull); ("total_licenses", JInt 0)].

Definition truncated_world : world :=
  World {["out/compatibility_index.json" := Json truncated_index]} ∅ (λ _, 0) [].

(** The example document at the default path of the script. *)
Definition default_world : world :=
  World {["data/compatibility_matrix.json" := Json (JObject example_data)]} ∅ (λ _, 0) [].

(** A turn of the monitor that finds ten licenses processed and nine files;
    the same turn on a console that cannot print the progress line; and the
    same turn with the license directory out of reach. *)
Definition mismatch_record : json :=
  JObject [("total_processed", JInt 10);
           ("last_updated", JString "2024-01-01T10:00:00.123456")].

Definition mismatch_turn : monitor_env :=
  MonitorEnv (Readable (Json mismatch_record)) (Dir 9) any_line None.

Definition no_progress_line (line : monitor_event) : bool :=
  match line with
  | PrintProgress _ _ => false
  | _ => true
  end.

Definition unprintable_turn : monitor_env :=
  MonitorEnv (Readable (Json mismatch_record)) (Dir 9) no_progress_line None.

Definition unreachable_dir_turn : monitor_env :=
  MonitorEnv (Readable (Json mismatch_record)) DirInaccessible any_line None.

(** * Properties *)

(** ** Dictionaries *)

Lemma dict_get_None (k : string) (d : dict) :
  dict_get k d = None ↔ k ∉ dict_keys d.
Proof.
  unfold dict_keys. induction d as [|[k' v] d IH]; simpl.
  - split; [intros _; apply not_elem_of_nil | done].
  - rewrite not_elem_of_cons. case_decide as Hk.
    + split; [done | by intros [? _]].
    + rewrite IH. split; [done | by intros [_ ?]].
Qed.

Lemma dict_get_Some_elem (k : string) (v : json) (d : dict) :
  dict_get k d = Some v → (k, v) ∈ d.
Proof.
  induction d as [|[k' v'] d IH]; simpl; [done|].
  case_decide; intros ?; simplify_eq; [left | right; auto].
Qed.

Lemma dict_get_elem (k : string) (v : json) (d : dict) :
  NoDup (dict_keys d) → (k, v) ∈ d → dict_get k d = Some v.
Proof.
  unfold dict_keys. induction d as [|[k' v'] d IH]; simpl.
  - intros _ H. by apply elem_of_nil in H.
  - rewrite NoDup_cons. intros [Hk Hd] [?|Hin]%elem_of_cons; simplify_eq.
    + by rewrite decide_True.
    + rewrite decide_False; [auto|]. intros ->. apply Hk.
      by apply (list_elem_of_fmap_2 fst) in Hin.
Qed.

Lemma dict_get_is_Some (k : string) (d : dict) :
  k ∈ dict_keys d → is_Some (dict_get k d).
Proof.
  intros Hk. destruct (dict_get k d) eqn:E; [eauto|].
  by apply dict_get_None in E.
Qed.

Lemma dict_set_fresh (k : string) (v : json) (d : dict) :
  k ∉ dict_keys d → dict_set k v d = d ++ [(k, v)].
Proof.
  unfold dict_keys. induction d as [|[k' v'] d IH]; simpl; [done|].
  rewrite not_elem_of_cons. intros [? ?]. rewrite decide_False by done.
  by rewrite IH.
Qed.

Lemma dict_update_fresh (d other : dict) :
  NoDup (dict_keys other) →
  (∀ k, k ∈ dict_keys other → k ∉ dict_keys d) →
  dict_update d other = d ++ other.
Proof.
  unfold dict_update, dict_keys. revert d.
  induction other as [|[k v] other IH]; intros d Hnd Hdisj; simpl.
  - by rewrite app_nil_r.
  - simpl in Hnd. apply NoDup_cons in Hnd as [Hk Hnd].
    rewrite dict_set_fresh by (apply Hdisj; simpl; left).
    rewrite IH; [by rewrite <- app_assoc | done |].
    intros k' Hk'. rewrite fmap_app, elem_of_app. simpl.
    intros [?|?%list_elem_of_singleton]; [|by subst].
    eapply Hdisj; [|done]. simpl. by right.
Qed.

Lemma select_app (d : dict) (ids1 ids2 : list string) :
  select d (ids1 ++ ids2) = select d ids1 ++ select d ids2.
Proof. apply omap_app. Qed.

Lemma select_keys (d : dict) (ids : list string) :
  ids ⊆ dict_keys d → dict_keys (select d ids) = ids.
Proof.
  unfold dict_keys, select. induction ids as [|id ids IH]; intros Hsub; [done|].
  simpl. destruct (dict_get_is_Some id d) as [v ->]; [apply Hsub; left|].
  simpl. f_equal. apply IH. intros x Hx. apply Hsub. by right.
Qed.

Lemma select_keys_sub (d : dict) (ids : list string) :
  dict_keys (select d ids) ⊆ ids.
Proof.
  unfold dict_keys, select. induction ids as [|id ids IH]; simpl; [done|].
  destruct (dict_get id d); simpl.
  - intros x [->|?]%elem_of_cons; [left | right; auto].
  - intros x ?. right. auto.
Qed.

Lemma select_entries (d l : dict) :
  (∀ k v, (k, v) ∈ l → dict_get k d = Some v) → select d (dict_keys l) = l.
Proof.
  unfold select, dict_keys.
  induction l as [|[k v] l IH]; intros Hall; simpl; [done|].
  rewrite (Hall k v) by left. simpl. f_equal. apply IH.
  intros k' v' ?. apply Hall. by right.
Qed.

Lemma select_all (d : dict) :
  NoDup (dict_keys d) → select d (dict_keys d) = d.
Proof. intros Hnd. apply select_entries. intros k v. by apply dict_get_elem. Qed.

Lemma select_Permutation (d : dict) (ids1 ids2 : list string) :
  ids1 ≡ₚ ids2 → select d ids1 ≡ₚ select d ids2.
Proof. intros H. unfold select. by rewrite H. Qed.

Lemma dict_get_Permutation (k : string) (d1 d2 : dict) :
  NoDup (dict_keys d1) → d1 ≡ₚ d2 → dict_get k d1 = dict_get k d2.
Proof.
  intros Hnd Hp.
  assert (Hnd2 : NoDup (dict_keys d2)) by (unfold dict_keys in *; by rewrite <- Hp).
  destruct (dict_get k d1) as [v|] eqn:E1.
  - symmetry. apply dict_get_elem; [done|]. rewrite <- Hp.
    by apply dict_get_Some_elem.
  - symmetry. apply dict_get_None. apply dict_get_None in E1.
    unfold dict_keys in *. by rewrite <- Hp.
Qed.

(** ** File names and paths *)

Lemma string_app_cons (c : ascii) (s t : string) :
  String c s +:+ t = String c (s +:+ t).
Proof. reflexivity. Qed.

Lemma string_app_empty (t : string) : "" +:+ t = t.
Proof. reflexivity. Qed.

Lemma string_app_length (s t : string) :
  String.length (s +:+ t) = (String.length s + String.length t)%nat.
Proof.
  induction s as [|c s IH]; [done|].
  rewrite string_app_cons. simpl. by rewrite IH.
Qed.

Lemma string_app_assoc (s t u : string) : (s +:+ t) +:+ u = s +:+ t +:+ u.
Proof. induction s; [done|]. rewrite !string_app_cons. by f_equal. Qed.

Lemma string_app_inj_r (s1 s2 t : string) : s1 +:+ t = s2 +:+ t → s1 = s2.
Proof.
  revert s2. induction s1 as [|c s1 IH]; intros [|c' s2] H.
  - done.
  - apply (f_equal String.length) in H.
    rewrite string_app_empty, string_app_cons in H. simpl in H.
    rewrite string_app_length in H. lia.
  - apply (f_equal String.length) in H.
    rewrite string_app_empty, string_app_cons in H. simpl in H.
    rewrite string_app_length in H. lia.
  - rewrite !string_app_cons in H. injection H as -> H. f_equal. by apply IH.
Qed.

Lemma read_decimal_zeros (n : nat) (s : string) :
  read_decimal (zeros n +:+ s) = read_decimal s.
Proof.
  induction n as [|n IH]; [done|].
  simpl zeros. rewrite string_app_cons. unfold read_decimal in *. simpl.
  destruct (NilEmpty.uint_of_string (zeros n +:+ s)) as [d|],
    (NilEmpty.uint_of_string s) as [d'|]; simplify_eq/=; congruence.
Qed.

Lemma read_decimal_zfill (width : nat) (n : N) :
  read_decimal (zfill width (decimal n)) = Some n.
Proof.
  unfold zfill. rewrite read_decimal_zeros. unfold read_decimal, decimal.
  rewrite NilEmpty.usu. simpl. f_equal. apply DecimalN.Unsigned.of_to.
Qed.

Lemma format_03d_inj (i j : Z) :
  0 ≤ i → 0 ≤ j → format_03d i = format_03d j → i = j.
Proof.
  intros Hi Hj. unfold format_03d. rewrite !decide_False by lia.
  intros H. apply (f_equal read_decimal) in H.
  rewrite !read_decimal_zfill in H. injection H as H. lia.
Qed.

Lemma chunk_name_inj (i j : Z) :
  0 ≤ i → 0 ≤ j → chunk_name i = chunk_name j → i = j.
Proof.
  intros Hi Hj H. unfold chunk_name in H.
  apply String.app_inj, string_app_inj_r in H. by apply format_03d_inj.
Qed.

Lemma chunk_name_not_index (i : Z) : chunk_name i ≠ index_name.
Proof.
  unfold chunk_name, index_name. rewrite !string_app_cons. intros H. discriminate H.
Qed.

Lemma chunk_name_relative (i : Z) : starts_with_sep (chunk_name i) = false.
Proof. reflexivity. Qed.

Lemma path_join_relative (a b : string) :
  starts_with_sep b = false → path_join a b = dir_prefix a +:+ b.
Proof.
  intros Hb. unfold path_join, dir_prefix. rewrite Hb.
  destruct (bool_decide (a = "") || ends_with_sep a); [done|].
  by rewrite string_app_assoc.
Qed.

Lemma chunk_path_inj (dir : string) (i j : Z) :
  0 ≤ i → 0 ≤ j →
  path_join dir (chunk_name i) = path_join dir (chunk_name j) → i = j.
Proof.
  intros Hi Hj. rewrite !path_join_relative by apply chunk_name_relative.
  intros H%String.app_inj. by apply chunk_name_inj.
Qed.

Lemma chunk_path_not_index (dir : string) (i : Z) :
  path_join dir (chunk_name i) ≠ path_join dir index_name.
Proof.
  rewrite !path_join_relative by reflexivity.
  intros H%String.app_inj. by apply chunk_name_not_index in H.
Qed.

(** ** Ceiling division and slices *)

Lemma ceil_div_bounds (a k : Z) :
  0 < k → let n := - ((- a) `div` k) in k * (n - 1) < a ≤ k * n.
Proof.
  intros Hk n. subst n.
  pose proof (Z.div_mod (- a) k ltac:(lia)) as Hdm.
  pose proof (Z.mod_pos_bound (- a) k Hk) as Hb.
  nia.
Qed.

Lemma ceil_div_unique (a k n : Z) :
  0 < k → k * (n - 1) < a ≤ k * n → n = - ((- a) `div` k).
Proof.
  intros Hk Hn. pose proof (ceil_div_bounds a k Hk) as Hc. simpl in Hc. nia.
Qed.

Lemma ceil_div_alt (a k : Z) :
  0 < k → - ((- a) `div` k) = (a + k - 1) `div` k.
Proof.
  intros Hk. symmetry. apply ceil_div_unique; [done|].
  pose proof (Z.div_mod (a + k - 1) k ltac:(lia)) as Hdm.
  pose proof (Z.mod_pos_bound (a + k - 1) k Hk) as Hb.
  nia.
Qed.

Lemma ceil_div_nonneg (a k : Z) : 0 < k → 0 ≤ a → 0 ≤ - ((- a) `div` k).
Proof. intros Hk Ha. pose proof (ceil_div_bounds a k Hk) as Hc. simpl in Hc. nia. Qed.

(** The ceiling that [math.ceil] returns, against the exact one. *)
Lemma underflow_scale_pos : 0 < underflow_scale.
Proof. reflexivity. Qed.

Lemma underflows_nonneg (a b : Z) :
  0 ≤ a → underflows a b = true ↔ 0 < a ∧ 0 < b ∧ a * underflow_scale ≤ b.
Proof.
  intros Ha. unfold underflows. rewrite bool_decide_eq_true.
  rewrite (Z.abs_eq a) by done. split.
  - intros [[[? ?]|[? ?]] Hs]; [|lia]. by rewrite Z.abs_eq in Hs by lia.
  - intros (? & ? & Hs). split; [by left|]. by rewrite Z.abs_eq by lia.
Qed.

Lemma ceil_of_quotient_exact (a b : Z) :
  0 ≤ a → b < underflow_scale → ceil_of_quotient a b = - ((- a) `div` b).
Proof.
  intros Ha Hb. unfold ceil_of_quotient.
  destruct (underflows a b) eqn:E; [|done].
  apply underflows_nonneg in E as (? & ? & ?); [|done].
  pose proof underflow_scale_pos. nia.
Qed.

Lemma ceil_of_quotient_underflow (a b : Z) :
  0 < a → a * underflow_scale ≤ b → ceil_of_quotient a b = 0.
Proof.
  intros Ha Hb. unfold ceil_of_quotient.
  rewrite (proj2 (underflows_nonneg a b ltac:(lia))); [done|].
  pose proof underflow_scale_pos. split_and!; [done | nia | done].
Qed.

Lemma ceil_of_quotient_0 (b : Z) : ceil_of_quotient 0 b = 0.
Proof.
  unfold ceil_of_quotient. destruct (underflows 0 b); [done|].
  simpl. by rewrite Zdiv_0_l.
Qed.

Lemma ceil_of_quotient_bounds (a k : Z) :
  0 < k → 0 ≤ a →
  0 ≤ ceil_of_quotient a k ∧ k * (ceil_of_quotient a k - 1) < a.
Proof.
  intros Hk Ha. unfold ceil_of_quotient.
  destruct (underflows a k) eqn:E.
  - apply underflows_nonneg in E; lia.
  - pose proof (ceil_div_bounds a k Hk) as Hb. simpl in Hb.
    pose proof (ceil_div_nonneg a k Hk Ha). lia.
Qed.

Lemma ceil_of_quotient_zero (a k : Z) :
  0 < k → k < underflow_scale → 0 ≤ a → ceil_of_quotient a k = 0 ↔ a = 0.
Proof.
  intros Hk Hs Ha. rewrite ceil_of_quotient_exact by done.
  pose proof (ceil_div_bounds a k Hk) as Hb. simpl in Hb. split.
  - intros H. rewrite H in Hb. lia.
  - intros ->. simpl. by rewrite Zdiv_0_l.
Qed.

Lemma py_slice_group {A} (l : list A) (k : Z) (i : nat) :
  0 < k → Z.of_nat i * k ≤ Z.of_nat (length l) →
  py_slice l (Z.of_nat i * k) (Z.min ((Z.of_nat i + 1) * k) (Z.of_nat (length l)))
  = group (Z.to_nat k) l i.
Proof.
  intros Hk Hi. unfold py_slice, slice_bound, group.
  rewrite !decide_False by lia.
  replace (Z.to_nat (Z.min (Z.of_nat i * k) (Z.of_nat (length l))))
    with (i * Z.to_nat k)%nat by lia.
  destruct (decide ((Z.of_nat i + 1) * k ≤ Z.of_nat (length l))).
  - f_equal. lia.
  - rewrite !take_ge; [done | rewrite length_drop; lia ..].
Qed.

Lemma concat_groups {A} (size : nat) (l : list A) (n : nat) :
  concat (group size l <$> seq 0 n) = take (n * size) l.
Proof.
  induction n as [|n IH]; [done|].
  rewrite seq_S, fmap_app, concat_app, IH. simpl. rewrite app_nil_r.
  unfold group. rewrite take_take_drop. f_equal. lia.
Qed.

Lemma concat_groups_all {A} (size : nat) (l : list A) (n : nat) :
  (length l ≤ n * size)%nat → concat (group size l <$> seq 0 n) = l.
Proof. intros H. rewrite concat_groups. by apply take_ge. Qed.

Lemma length_group {A} (size : nat) (l : list A) (i : nat) :
  length (group size l i) = (size `min` (length l - i * size))%nat.
Proof. unfold group. by rewrite length_take, length_drop. Qed.

Lemma group_sub {A} (size : nat) (l : list A) (i : nat) : group size l i ⊆ l.
Proof.
  unfold group. etrans; [apply subseteq_take | apply subseteq_drop].
Qed.

(** ** Running the splitter *)

Lemma bind_Returned {A B} (m : M A) (f : A → M B) (w w' : world) (a : A) :
  m w = (w', Returned a) → (m ≫= f) w = f a w'.
Proof. intros H. unfold mbind, M_bind. by rewrite H. Qed.

Lemma bind_Raised {A B} (m : M A) (f : A → M B) (w w' : world) (e : exn) :
  m w = (w', Raised e) → (m ≫= f) w = (w', Raised e).
Proof. intros H. unfold mbind, M_bind. by rewrite H. Qed.

Lemma bind_lift {A B} (o : outcome A) (f : A → M B) (w : world) :
  (lift o ≫= f) w =
  match o with
  | Returned a => f a w
  | Raised e => (w, Raised e)
  | Unmodelled => (w, Unmodelled)
  end.
Proof. by destruct o. Qed.

Lemma for_each_cons `{MBind m, MRet m} {A S : Type}
    (x : A) (xs : list A) (body : A → S → m S) (s : S) :
  for_each (x :: xs) body s = body x s ≫= for_each xs body.
Proof. reflexivity. Qed.

Lemma record_nil (w : world) : record w [] = w.
Proof. destruct w. unfold record. simpl. by rewrite app_nil_r. Qed.

Lemma record_app (w : world) (evs1 evs2 : list event) :
  record (record w evs1) evs2 = record w (evs1 ++ evs2).
Proof.
  unfold record, apply_writes. simpl. by rewrite foldl_app, app_assoc.
Qed.

Lemma write_json_ok (path : string) (v : json) (w : world) :
  path ∉ unwritable w → write_json path v w = (record w [Wrote path v], Returned tt).
Proof. intros H. unfold write_json. by rewrite decide_False. Qed.

Lemma apply_writes_is_Some (evs : list event) (m : gmap string content) (p : string) :
  is_Some (m !! p) → is_Some (apply_writes evs m !! p).
Proof.
  revert m. induction evs as [|[q v] evs IH]; intros m Hm; [done|].
  simpl. apply IH. destruct (decide (q = p)) as [->|].
  - rewrite lookup_insert_eq. eauto.
  - by rewrite lookup_insert_ne.
Qed.

Lemma apply_writes_other (evs : list event) (m : gmap string content) (p : string) :
  p ∉ event_path <$> evs → apply_writes evs m !! p = m !! p.
Proof.
  revert m. induction evs as [|[q u] evs IH]; intros m Hp; [done|].
  simpl in *. apply not_elem_of_cons in Hp as [? ?].
  rewrite IH by done. by rewrite lookup_insert_ne.
Qed.

Lemma apply_writes_lookup (evs : list event) (m : gmap string content)
    (p : string) (v : json) :
  NoDup (event_path <$> evs) → Wrote p v ∈ evs →
  apply_writes evs m !! p = Some (Json v).
Proof.
  revert m. induction evs as [|[q u] evs IH]; intros m Hnd Hin.
  - by apply elem_of_nil in Hin.
  - simpl in *. apply NoDup_cons in Hnd as [Hq Hnd].
    apply elem_of_cons in Hin as [Heq|Hin].
    + injection Heq as -> ->. rewrite apply_writes_other by done.
      apply lookup_insert_eq.
    + by apply IH.
Qed.

(** The loop that copies the entries of one chunk. *)
Lemma copy_entries (compat : dict) (ids : list string) (acc : dict) :
  ids ⊆ dict_keys compat → NoDup ids →
  (∀ id, id ∈ ids → id ∉ dict_keys acc) →
  for_each ids (λ license_id acc,
      v ← py_getitem (JObject compat) license_id;
      mret (dict_set license_id v acc)) acc
  = Returned (acc ++ select compat ids).
Proof.
  revert acc. induction ids as [|id ids IH]; intros acc Hsub Hnd Hfresh.
  - simpl. by rewrite app_nil_r.
  - apply NoDup_cons in Hnd as [Hid Hnd].
    destruct (dict_get_is_Some id compat) as [v Hv]; [apply Hsub; left|].
    unfold select. simpl. rewrite Hv. simpl.
    rewrite dict_set_fresh by (apply Hfresh; left).
    rewrite IH; [by rewrite <- app_assoc | | done |].
    + intros x ?. apply Hsub. by right.
    + intros id' Hid'. unfold dict_keys. rewrite fmap_app, elem_of_app. simpl.
      intros [?|?%list_elem_of_singleton]; [|by subst].
      eapply Hfresh; [|done]. by right.
Qed.

Section split_loop.
Variables (dir : string) (ids : list string) (compat : dict) (k total : Z).
Hypothesis k_pos : 0 < k.
Hypothesis total_len : total = Z.of_nat (length ids).
Hypothesis ids_keys : ids ⊆ dict_keys compat.
Hypothesis ids_nodup : NoDup ids.

Let body := split_chunk dir ids (JObject compat) k total.

Lemma split_chunk_ok (i : nat) (acc : list chunk_descriptor) (w : world) :
  Z.of_nat i * k ≤ Z.of_nat (length ids) →
  writable_dir w dir →
  body (Z.of_nat i) acc w =
    (record w [chunk_write dir (nth_chunk ids compat k i)],
     Returned (acc ++ [descriptor_of (nth_chunk ids compat k i)])).
Proof.
  intros Hi Hw. unfold body, split_chunk. rewrite total_len.
  rewrite py_slice_group by done.
  rewrite copy_entries.
  - rewrite bind_lift. simpl.
    erewrite bind_Returned; [|by apply write_json_ok]. done.
  - etrans; [apply group_sub | done].
  - eapply sublist_NoDup; [done|]. unfold group.
    etrans; [apply sublist_take | apply sublist_drop].
  - intros id _. apply not_elem_of_nil.
Qed.

Lemma split_loop_ok (idxs : list nat) (acc : list chunk_descriptor) (w : world) :
  (∀ i, i ∈ idxs → Z.of_nat i * k ≤ Z.of_nat (length ids)) →
  writable_dir w dir →
  for_each (Z.of_nat <$> idxs) body acc w =
    (record w (chunk_write dir <$> (nth_chunk ids compat k <$> idxs)),
     Returned (acc ++ (descriptor_of <$> (nth_chunk ids compat k <$> idxs)))).
Proof.
  revert acc w. induction idxs as [|i idxs IH]; intros acc w Hidx Hw.
  - simpl. by rewrite record_nil, app_nil_r.
  - simpl. erewrite bind_Returned; [|apply split_chunk_ok; [apply Hidx; left | done]].
    rewrite IH; [| intros; apply Hidx; by right | done].
    rewrite record_app. simpl. by rewrite <- app_assoc.
Qed.
End split_loop.

Lemma apply_writes_written (evs : list event) (m : gmap string content) (p : string) :
  p ∈ event_path <$> evs → is_Some (apply_writes evs m !! p).
Proof.
  revert m. induction evs as [|[q v] evs IH]; intros m Hp; simpl in *.
  - by apply elem_of_nil in Hp.
  - apply elem_of_cons in Hp as [->|Hp]; [|by apply IH].
    apply apply_writes_is_Some. rewrite lookup_insert_eq. eauto.
Qed.

(** The loop that adds up the sizes of the chunk files. *)
Lemma sizes_loop (dir : string) (ds : list chunk_descriptor) (t : Z) (w : world) :
  (∀ d, d ∈ ds → is_Some (disk w !! path_join dir (file d))) →
  ∃ t', for_each ds (λ chunk_info total,
            size ← getsize (path_join dir (file chunk_info));
            mret (total + size)) t w = (w, Returned t').
Proof.
  revert t. induction ds as [|d ds IH]; intros t Hall; simpl; [by eexists|].
  destruct (Hall d) as [c Hc]; [left|].
  destruct (IH (t + byte_size w c)) as [t' Ht']; [intros; apply Hall; by right|].
  exists t'. rewrite <- Ht'. unfold mbind at 1, M_bind at 1.
  unfold mbind at 1, M_bind at 1, getsize at 1. by rewrite Hc.
Qed.

Lemma sorted_Permutation (l : list string) : sorted l ≡ₚ l.
Proof. apply merge_sort_Permutation. Qed.

Lemma length_sorted (l : list string) : length (sorted l) = length l.
Proof. by rewrite sorted_Permutation. Qed.

Section split_run.
Variables (input_file dir : string) (k : Z) (w : world) (data compat : dict).
Hypothesis input_ok : disk w !! input_file = Some (Json (JObject data)).
Hypothesis compat_ok :
  py_dot_get (JObject data) "compatibility" (JObject []) = Returned (JObject compat).
Hypothesis keys_nodup : NoDup (dict_keys compat).
Hypothesis k_pos : 0 < k.
Hypothesis dir_ok : writable_dir w dir.

Lemma chunk_index_bound (i : nat) :
  i ∈ seq 0 (chunk_count compat k) →
  Z.of_nat i * k ≤ Z.of_nat (length (sorted (dict_keys compat))).
Proof.
  intros Hi%elem_of_seq. unfold chunk_count in Hi. rewrite length_sorted.
  pose proof (ceil_of_quotient_bounds (Z.of_nat (length (dict_keys compat))) k k_pos) as Hb.
  nia.
Qed.

Lemma chunk_count_zero :
  k < underflow_scale → chunk_count compat k = 0%nat ↔ dict_keys compat = [].
Proof.
  intros Hs. unfold chunk_count.
  pose proof (ceil_of_quotient_bounds (Z.of_nat (length (dict_keys compat))) k k_pos) as Hb.
  pose proof (ceil_of_quotient_zero (Z.of_nat (length (dict_keys compat))) k k_pos Hs) as Hz.
  rewrite <- length_zero_iff_nil. lia.
Qed.

Lemma run_events_paths :
  NoDup (event_path <$> run_events dir data compat k).
Proof.
  unfold run_events, all_chunks. rewrite fmap_app, <- !list_fmap_compose. simpl.
  apply NoDup_app. split_and!.
  - apply NoDup_fmap_2_strong; [|apply NoDup_seq].
    intros i j _ _ H. simpl in H. apply chunk_path_inj in H; lia.
  - intros p (i & -> & _)%list_elem_of_fmap ?%list_elem_of_singleton.
    simpl in *. by eapply chunk_path_not_index.
  - apply NoDup_singleton.
Qed.

Lemma split_run :
  split_compatibility_matrix input_file dir k w =
    (record w (run_events dir data compat k),
     if decide (chunk_count compat k = 0%nat) then Raised ZeroDivisionError
     else Returned tt).
Proof.
  unfold split_compatibility_matrix.
  erewrite bind_Returned; [|by unfold read_json; rewrite input_ok].
  pose proof compat_ok as Hc. simpl in Hc. injection Hc as Hc.
  rewrite !bind_lift. simpl. rewrite !bind_lift. rewrite Hc. simpl.
  erewrite bind_Returned; [|reflexivity].
  unfold math_ceil_div. rewrite decide_False by lia. rewrite bind_lift.
  rewrite length_sorted.
  set (n := ceil_of_quotient (Z.of_nat (length (dict_keys compat))) k).
  assert (Hn : 0 ≤ n) by (apply ceil_of_quotient_bounds; lia).
  erewrite bind_Returned; cycle 1.
  { unfold py_range. apply split_loop_ok; try done.
    - by rewrite length_sorted.
    - by rewrite sorted_Permutation.
    - by rewrite sorted_Permutation.
    - apply chunk_index_bound. }
  simpl app.
  fold (chunk_count compat k) (all_chunks compat k).
  erewrite bind_Returned; [|by apply write_json_ok].
  rewrite record_app.
  change (Wrote _ _) with (index_write dir (the_index data compat k)).
  fold (run_events dir data compat k).
  set (w' := record w _).
  destruct (disk w' !! input_file) as [c|] eqn:Hin; cycle 1.
  { exfalso. eapply is_Some_None. rewrite <- Hin. unfold w'. simpl.
    apply apply_writes_is_Some. rewrite input_ok. eauto. }
  erewrite bind_Returned; [|by unfold getsize; rewrite Hin].
  rewrite bind_lift. unfold true_div at 1. rewrite decide_False by lia.
  destruct (sizes_loop dir (descriptor_of <$> all_chunks compat k) 0 w') as [t Ht].
  { intros d (c' & -> & Hc')%list_elem_of_fmap. unfold w'. simpl.
    apply apply_writes_written. unfold run_events. rewrite fmap_app.
    apply elem_of_app. left. apply list_elem_of_fmap. exists (chunk_write dir c').
    split; [done|]. by apply list_elem_of_fmap_2. }
  erewrite bind_Returned; [|exact Ht].
  rewrite bind_lift. unfold true_div at 1. rewrite decide_False by lia.
  unfold lift, true_div. f_equal.
  destruct (decide (chunk_count compat k = 0%nat)) as [E|E];
    unfold chunk_count in E; fold n in E.
  - rewrite decide_True; [done | lia].
  - rewrite decide_False; [done | lia].
Qed.
End split_run.

(** ** Running the loader *)

Lemma descriptor_file_field (d : chunk_descriptor) :
  py_getitem (json_of_descriptor d) "file" = Returned (JString (file d)).
Proof. reflexivity. Qed.

Lemma chunk_compatibility_field (c : chunk_file) :
  py_getitem (json_of_chunk c) "compatibility" = Returned (JObject (compatibility c)).
Proof. reflexivity. Qed.

Lemma index_fields (i : index_file) :
  py_getitem (json_of_index i) "version" = Returned (index_version i) ∧
  py_getitem (json_of_index i) "generated" = Returned (index_generated i) ∧
  py_getitem (json_of_index i) "total_licenses"
    = Returned (JInt (index_total_licenses i)) ∧
  py_getitem (json_of_index i) "chunks" ≫= py_iter
    = Returned (json_of_descriptor <$> chunks i).
Proof. done. Qed.

Lemma read_json_ok (path : string) (v : json) (w : world) :
  disk w !! path = Some (Json v) → read_json path w = (w, Returned v).
Proof. intros H. unfold read_json. by rewrite H. Qed.

Lemma load_loop (dir : string) (cs : list chunk_file) (acc : dict) (w : world) :
  (∀ c, c ∈ cs →
     disk w !! path_join dir (chunk_name (chunk_id c)) = Some (Json (json_of_chunk c))) →
  for_each (json_of_descriptor <$> (descriptor_of <$> cs)) (λ chunk_info acc,
      chunk_file ← lift (py_getitem chunk_info "file");
      chunk_path ← lift (py_path_join dir chunk_file);
      chunk_data ← read_json chunk_path;
      chunk_compatibility ← lift (py_getitem chunk_data "compatibility");
      lift (py_update acc chunk_compatibility)) acc w
  = (w, Returned (foldl dict_update acc (compatibility <$> cs))).
Proof.
  revert acc. induction cs as [|c cs IH]; intros acc Hdisk; [done|].
  rewrite !fmap_cons, for_each_cons. cbn [foldl].
  rewrite <- IH by (intros; apply Hdisk; by right).
  apply bind_Returned.
  rewrite descriptor_file_field, bind_lift. simpl py_path_join. rewrite bind_lift.
  erewrite bind_Returned; [|apply read_json_ok, Hdisk; left].
  by rewrite chunk_compatibility_field, bind_lift.
Qed.

Lemma merge_selected (compat : dict) (gs : list (list string)) (acc : dict) :
  NoDup (concat gs) → concat gs ⊆ dict_keys compat →
  (∀ id, id ∈ concat gs → id ∉ dict_keys acc) →
  foldl dict_update acc (select compat <$> gs) = acc ++ select compat (concat gs).
Proof.
  revert acc. induction gs as [|g gs IH]; intros acc Hnd Hsub Hfresh; simpl.
  - by rewrite app_nil_r.
  - simpl in *. apply NoDup_app in Hnd as (Hg & Hdisj & Hgs).
    assert (Hgk : dict_keys (select compat g) = g).
    { apply select_keys. intros x ?. apply Hsub, elem_of_app. by left. }
    rewrite dict_update_fresh; cycle 1.
    { by rewrite Hgk. }
    { rewrite Hgk. intros id ?. apply Hfresh, elem_of_app. by left. }
    rewrite IH; [by rewrite select_app, app_assoc | done | |].
    + intros x ?. apply Hsub, elem_of_app. by right.
    + intros id Hid. unfold dict_keys. rewrite fmap_app. fold (dict_keys acc).
      fold (dict_keys (select compat g)). rewrite Hgk.
      intros [?|?]%elem_of_app.
      * eapply Hfresh; [|done]. apply elem_of_app. by right.
      * by eapply Hdisj.
Qed.

Lemma licenses_all_chunks (compat : dict) (k : Z) :
  licenses <$> all_chunks compat k
  = group (Z.to_nat k) (sorted (dict_keys compat)) <$> seq 0 (chunk_count compat k).
Proof. unfold all_chunks. by rewrite <- list_fmap_compose. Qed.

Lemma compatibility_all_chunks (compat : dict) (k : Z) :
  compatibility <$> all_chunks compat k
  = select compat <$> (licenses <$> all_chunks compat k).
Proof. unfold all_chunks. by rewrite <- !list_fmap_compose. Qed.

Lemma concat_all_chunks_take (compat : dict) (k : Z) :
  concat (licenses <$> all_chunks compat k)
  = take (chunk_count compat k * Z.to_nat k) (sorted (dict_keys compat)).
Proof. rewrite licenses_all_chunks. apply concat_groups. Qed.

Lemma concat_all_chunks (compat : dict) (k : Z) :
  0 < k → k < underflow_scale →
  concat (licenses <$> all_chunks compat k) = sorted (dict_keys compat).
Proof.
  intros Hk Hs. rewrite licenses_all_chunks. apply concat_groups_all.
  rewrite length_sorted. unfold chunk_count.
  rewrite ceil_of_quotient_exact by lia.
  pose proof (ceil_div_bounds (Z.of_nat (length (dict_keys compat))) k Hk) as Hb.
  simpl in Hb. nia.
Qed.

Lemma concat_all_chunks_NoDup (compat : dict) (k : Z) :
  NoDup (dict_keys compat) → NoDup (concat (licenses <$> all_chunks compat k)).
Proof.
  intros Hnd. rewrite concat_all_chunks_take.
  eapply sublist_NoDup; [|apply sublist_take]. by rewrite sorted_Permutation.
Qed.

Lemma concat_all_chunks_sub (compat : dict) (k : Z) :
  concat (licenses <$> all_chunks compat k) ⊆ dict_keys compat.
Proof.
  rewrite concat_all_chunks_take. etrans; [apply subseteq_take|].
  by rewrite sorted_Permutation.
Qed.

Section load_run.
Variables (dir : string) (k : Z) (w : world) (data compat : dict).
Hypothesis keys_nodup : NoDup (dict_keys compat).
Hypothesis k_pos : 0 < k.

Let w' := record w (run_events dir data compat k).

Lemma index_on_disk :
  disk w' !! path_join dir index_name
  = Some (Json (json_of_index (the_index data compat k))).
Proof.
  unfold w'. simpl. apply apply_writes_lookup; [by apply run_events_paths|].
  unfold run_events. apply elem_of_app. right. by apply list_elem_of_singleton.
Qed.

Lemma chunk_on_disk (c : chunk_file) :
  c ∈ all_chunks compat k →
  disk w' !! path_join dir (chunk_name (chunk_id c)) = Some (Json (json_of_chunk c)).
Proof.
  intros Hc. unfold w'. simpl. apply apply_writes_lookup; [by apply run_events_paths|].
  unfold run_events. apply elem_of_app. left.
  by apply (list_elem_of_fmap_2 (chunk_write dir)).
Qed.

Lemma load_run :
  load_split_matrix dir w' =
    (w', Returned {| doc_version := index_version (the_index data compat k);
                     doc_generated := index_generated (the_index data compat k);
                     doc_total_licenses := JInt (Z.of_nat (length (dict_keys compat)));
                     doc_compatibility :=
                       select compat (concat (licenses <$> all_chunks compat k)) |}).
Proof.
  unfold load_split_matrix.
  erewrite bind_Returned; [|apply read_json_ok, index_on_disk].
  destruct (index_fields (the_index data compat k)) as (-> & -> & -> & ->).
  rewrite !bind_lift.
  erewrite bind_Returned; [|apply load_loop, chunk_on_disk].
  unfold mret, M_ret. repeat f_equal.
  rewrite compatibility_all_chunks, merge_selected.
  - done.
  - by apply concat_all_chunks_NoDup.
  - apply concat_all_chunks_sub.
  - intros id _. apply not_elem_of_nil.
Qed.

Lemma load_run_all :
  k < underflow_scale →
  load_split_matrix dir w' =
    (w', Returned {| doc_version := index_version (the_index data compat k);
                     doc_generated := index_generated (the_index data compat k);
                     doc_total_licenses := JInt (Z.of_nat (length (dict_keys compat)));
                     doc_compatibility := select compat (sorted (dict_keys compat)) |}).
Proof. intros Hs. by rewrite load_run, concat_all_chunks. Qed.
End load_run.

Lemma select_sorted (compat : dict) :
  NoDup (dict_keys compat) → select compat (sorted (dict_keys compat)) ≡ₚ compat.
Proof.
  intros Hnd. rewrite (select_Permutation _ _ _ (sorted_Permutation _)).
  by rewrite select_all.
Qed.

(** ** Write order *)

Lemma bind_unfold {A B} (m : M A) (f : A → M B) (w : world) :
  (m ≫= f) w =
  match m w with
  | (w', Returned a) => f a w'
  | (w', Raised e) => (w', Raised e)
  | (w', Unmodelled) => (w', Unmodelled)
  end.
Proof. reflexivity. Qed.

Lemma stateless_ret {A} (a : A) : stateless (mret a : M A).
Proof. by intros w. Qed.

Lemma stateless_lift {A} (o : outcome A) : stateless (lift o).
Proof. by intros w. Qed.

Lemma stateless_getsize (path : string) : stateless (getsize path).
Proof. intros w. unfold getsize. by destruct (disk w !! path). Qed.

Lemma stateless_bind {A B} (m : M A) (f : A → M B) :
  stateless m → (∀ a, stateless (f a)) → stateless (m ≫= f).
Proof.
  intros Hm Hf w. rewrite bind_unfold. specialize (Hm w).
  destruct (m w) as [w' [a| |]]; simpl in *; subst; [apply Hf | done..].
Qed.

Lemma stateless_for_each {A S} (xs : list A) (body : A → S → M S) (s : S) :
  (∀ x s, stateless (body x s)) → stateless (for_each xs body s).
Proof.
  intros Hbody. revert s. induction xs as [|x xs IH]; intros s.
  - apply stateless_ret.
  - rewrite for_each_cons. by apply stateless_bind.
Qed.

Lemma chunk_events_no_index (dir : string) (evs evs1 evs2 : list event) (v : json) :
  Forall (chunk_event dir) evs →
  evs ≠ evs1 ++ Wrote (path_join dir index_name) v :: evs2.
Proof.
  intros Hall ->. apply Forall_app in Hall as [_ Hall].
  apply Forall_cons in Hall as [[i Hi] _]. simpl in Hi.
  symmetry in Hi. by apply chunk_path_not_index in Hi.
Qed.

Lemma index_last_chunks (dir : string) (evs : list event) :
  Forall (chunk_event dir) evs → index_last dir evs.
Proof. intros Hall evs1 v evs2 H. by apply chunk_events_no_index in H. Qed.

Lemma index_last_nil (dir : string) : index_last dir [].
Proof. apply index_last_chunks, Forall_nil. done. Qed.

Lemma index_last_snoc (dir : string) (evs : list event) (idx : index_file) :
  Forall (chunk_event dir) evs →
  (∀ d, d ∈ chunks idx → path_join dir (file d) ∈ event_path <$> evs) →
  index_last dir (evs ++ [index_write dir idx]).
Proof.
  intros Hall Hfiles evs1 v evs2 H.
  destruct evs2 as [|ev evs2 _] using rev_ind.
  - apply app_inj_tail in H as [-> H]. injection H as <-. eauto.
  - exfalso. rewrite app_comm_cons, app_assoc in H.
    apply app_inj_tail in H as [H _]. by apply chunk_events_no_index in H.
Qed.

Section split_trace.
Variables (dir : string) (ids : list string) (compat : json) (k total : Z).

Let body := split_chunk dir ids compat k total.

Lemma split_chunk_trace (idx : Z) (acc : list chunk_descriptor) (w : world) :
  (∃ v d, body idx acc w
            = (record w [Wrote (path_join dir (chunk_name idx)) v],
               Returned (acc ++ [d]))
          ∧ file d = chunk_name idx)
  ∨ ((body idx acc w).1 = w ∧ ∀ ds, (body idx acc w).2 ≠ Returned ds).
Proof.
  unfold body, split_chunk. rewrite bind_lift.
  match goal with |- context [for_each ?xs ?f ?a] => destruct (for_each xs f a) end;
    [|by right..].
  destruct (decide (path_join dir (chunk_name idx) ∈ unwritable w)) as [Hw|Hw].
  - right. erewrite bind_Raised; [done|]. unfold write_json. by rewrite decide_True.
  - left. erewrite bind_Returned; [|by apply write_json_ok]. by eexists _, _.
Qed.

Lemma split_loop_trace (idxs : list Z) (acc : list chunk_descriptor) (w : world) :
  ∃ evs,
    (for_each idxs body acc w).1 = record w evs ∧
    Forall (chunk_event dir) evs ∧
    ∀ ds, (for_each idxs body acc w).2 = Returned ds →
      ∃ ds', ds = acc ++ ds' ∧
        ∀ d, d ∈ ds' → path_join dir (file d) ∈ event_path <$> evs.
Proof.
  revert acc w. induction idxs as [|idx idxs IH]; intros acc w.
  - exists []. simpl. rewrite record_nil. split_and!; [done..|].
    intros ds [= <-]. exists []. rewrite app_nil_r. split; [done|].
    by intros d ?%elem_of_nil.
  - rewrite for_each_cons, bind_unfold.
    destruct (split_chunk_trace idx acc w) as [(v & d & -> & Hd)|[Hw Hr]].
    + destruct (IH (acc ++ [d]) (record w [Wrote (path_join dir (chunk_name idx)) v]))
        as (evs & Hevs & Hall & Hds).
      exists (Wrote (path_join dir (chunk_name idx)) v :: evs).
      rewrite Hevs, record_app. split_and!; [done| |].
      * apply Forall_cons. split; [by exists idx | done].
      * intros ds Hret. destruct (Hds ds Hret) as (ds' & -> & Hds').
        exists (d :: ds'). rewrite <- app_assoc. split; [done|].
        intros d' [->|?]%elem_of_cons; simpl.
        -- rewrite Hd. left.
        -- right. by apply Hds'.
    + exists []. rewrite record_nil.
      destruct (body idx acc w) as [w1 [ds| |]]; simpl in *; subst.
      * by destruct (Hr ds).
      * split_and!; [done..|]. by intros.
      * split_and!; [done..|]. by intros.
Qed.
End split_trace.

Lemma split_writes (input_file output_dir : string) (chunk_size : Z) (w : world) :
  ∃ evs,
    (split_compatibility_matrix input_file output_dir chunk_size w).1 = record w evs ∧
    index_last output_dir evs ∧
    ((split_compatibility_matrix input_file output_dir chunk_size w).2 = Returned tt →
     ∃ evs0 idx, evs = evs0 ++ [index_write output_dir idx]).
Proof.
  remember (split_compatibility_matrix input_file output_dir chunk_size w) as r eqn:Hr.
  assert (Hnone : ∀ e : outcome unit, r = (w, e) → e ≠ Returned tt →
            ∃ evs, r.1 = record w evs ∧ index_last output_dir evs ∧
              (r.2 = Returned tt → ∃ evs0 idx, evs = evs0 ++ [index_write output_dir idx])).
  { intros e -> ?. exists []. split_and!; [by rewrite record_nil | apply index_last_nil | done]. }
  unfold split_compatibility_matrix in Hr. rewrite bind_unfold in Hr.
  unfold read_json at 1 in Hr.
  destruct (disk w !! input_file) as [[data|]|]; [|by eapply Hnone..].
  rewrite bind_lift in Hr.
  destruct (py_dot_get data "version" _) as [version| |]; [|by eapply Hnone..].
  rewrite bind_lift in Hr.
  destruct (py_dot_get data "generated" _) as [generated| |]; [|by eapply Hnone..].
  rewrite bind_lift in Hr.
  destruct (py_dot_get data "total_licenses" _) as [?| |]; [|by eapply Hnone..].
  rewrite bind_lift in Hr.
  destruct (py_dot_get data "compatibility" _) as [compat| |]; [|by eapply Hnone..].
  rewrite bind_lift in Hr.
  destruct (py_dot_keys compat) as [keys| |]; [|by eapply Hnone..].
  cbv zeta in Hr. erewrite bind_Returned in Hr; [|reflexivity].
  rewrite bind_lift in Hr.
  destruct (math_ceil_div _ chunk_size) as [num_chunks| |]; [|by eapply Hnone..].
  clear Hnone. rewrite bind_unfold in Hr.
  destruct (split_loop_trace output_dir (sorted keys) compat chunk_size
              (Z.of_nat (length (sorted keys))) (py_range num_chunks) [] w)
    as (evs & Hw & Hall & Hds).
  destruct (for_each (m:=M) _ _ _ w) as [w1 [ds| |]]; simpl in Hw; subst w1;
    [|subst r; exists evs; split_and!; [done | by apply index_last_chunks | done]..].
  destruct (Hds ds eq_refl) as (ds' & -> & Hfiles). simpl app in Hr.
  rewrite bind_unfold in Hr.
  match type of Hr with context [write_json ?p ?v] =>
    destruct (decide (p ∈ unwritable (record w evs))) as [Hu|Hu];
    [ unfold write_json in Hr; rewrite (decide_True _ _ Hu) in Hr
    | rewrite (write_json_ok p v _ Hu) in Hr ]
  end.
  { subst r. exists evs. split_and!; [done | by apply index_last_chunks | done]. }
  rewrite record_app in Hr.
  match type of Hr with context [Wrote _ (json_of_index ?i)] =>
    change (Wrote _ (json_of_index i)) with (index_write output_dir i) in Hr;
    exists (evs ++ [index_write output_dir i])
  end.
  split_and!; [|by apply index_last_snoc|by eauto].
  subst r.
  match goal with |- (?m ?w').1 = _ => assert (Hs : stateless m); [|apply Hs] end.
  repeat first
    [ apply stateless_bind; [|intros ?]
    | apply stateless_getsize
    | apply stateless_lift
    | apply stateless_ret
    | apply stateless_for_each; intros ? ? ].
Qed.

(** ** Facts about the chunks of a run *)

Lemma length_all_chunks (compat : dict) (k : Z) :
  length (all_chunks compat k) = chunk_count compat k.
Proof. unfold all_chunks. by rewrite length_fmap, length_seq. Qed.

Lemma lookup_all_chunks (compat : dict) (k : Z) (i : nat) (c : chunk_file) :
  all_chunks compat k !! i = Some c →
  c = nth_chunk (sorted (dict_keys compat)) compat k i ∧ (i < chunk_count compat k)%nat.
Proof.
  unfold all_chunks. rewrite list_lookup_fmap.
  destruct (seq 0 (chunk_count compat k) !! i) as [j|] eqn:E; [|done].
  apply lookup_seq in E as [-> ?]. simpl. by intros [= <-].
Qed.

Lemma chunk_ids_all_chunks (compat : dict) (k : Z) :
  chunk_id <$> all_chunks compat k
  = py_range (Z.of_nat (length (all_chunks compat k))).
Proof.
  rewrite length_all_chunks. unfold all_chunks, py_range.
  rewrite <- list_fmap_compose, Nat2Z.id. done.
Qed.

Lemma chunk_count_bounds (compat : dict) (k : Z) :
  0 < k → k < underflow_scale →
  k * (Z.of_nat (chunk_count compat k) - 1) < Z.of_nat (length (dict_keys compat))
    ≤ k * Z.of_nat (chunk_count compat k).
Proof.
  intros Hk Hs. unfold chunk_count. rewrite ceil_of_quotient_exact by lia.
  pose proof (ceil_div_bounds (Z.of_nat (length (dict_keys compat))) k Hk) as Hb.
  pose proof (ceil_div_nonneg (Z.of_nat (length (dict_keys compat))) k Hk) as Hn.
  simpl in Hb. rewrite Z2Nat.id by lia. done.
Qed.

(** Every chunk of a run starts inside the key list, whatever the chunk
    size. *)
Lemma chunk_index_lt (compat : dict) (k : Z) (i : nat) :
  0 < k → (i < chunk_count compat k)%nat →
  Z.of_nat i * k < Z.of_nat (length (dict_keys compat)).
Proof.
  intros Hk Hi. unfold chunk_count in Hi.
  pose proof (ceil_of_quotient_bounds (Z.of_nat (length (dict_keys compat))) k Hk) as Hb.
  nia.
Qed.

Lemma sum_lengths {A} (gs : list (list A)) :
  foldr Z.add 0 ((λ g, Z.of_nat (length g)) <$> gs) = Z.of_nat (length (concat gs)).
Proof.
  induction gs as [|g gs IH]; [done|].
  rewrite fmap_cons. cbn [foldr concat]. rewrite IH, length_app. lia.
Qed.

Lemma elem_of_concat {A} (x : A) (ls : list (list A)) :
  x ∈ concat ls ↔ ∃ l, x ∈ l ∧ l ∈ ls.
Proof.
  induction ls as [|l0 ls IH]; simpl.
  - rewrite elem_of_nil. split; [done|]. intros (l & _ & H). by apply elem_of_nil in H.
  - rewrite elem_of_app, IH. split.
    + intros [?|(l & ? & ?)]; [exists l0; split; [done | left] | exists l; split; [done | by right]].
    + intros (l & ? & [->|?]%elem_of_cons); [by left | right; eauto].
Qed.

Lemma run_trace (input_file dir : string) (k : Z) (w : world) (data compat : dict) :
  disk w !! input_file = Some (Json (JObject data)) →
  py_dot_get (JObject data) "compatibility" (JObject []) = Returned (JObject compat) →
  NoDup (dict_keys compat) → 0 < k → writable_dir w dir →
  trace (split_compatibility_matrix input_file dir k w).1
  = trace w ++ (chunk_write dir <$> all_chunks compat k)
            ++ [index_write dir (the_index data compat k)].
Proof. intros. by erewrite split_run. Qed.

Lemma sorted_unique (l1 l2 : list string) : l1 ≡ₚ l2 → sorted l1 = sorted l2.
Proof.
  intros Hp. apply (Sorted_unique String.le).
  - apply Sorted_merge_sort, _.
  - apply Sorted_merge_sort, _.
  - by rewrite !sorted_Permutation.
Qed.

Lemma num_chunks_count (data compat : dict) (k : Z) :
  0 < k → index_num_chunks (the_index data compat k) = Z.of_nat (chunk_count compat k).
Proof.
  intros Hk. unfold chunk_count. simpl.
  pose proof (ceil_of_quotient_bounds (Z.of_nat (length (dict_keys compat))) k Hk). lia.
Qed.

Lemma length_nth_chunk (ids : list string) (compat : dict) (k : Z) (i : nat) :
  length (licenses (nth_chunk ids compat k i))
  = (Z.to_nat k `min` (length ids - i * Z.to_nat k))%nat.
Proof. apply length_group. Qed.

Lemma license_counts (cs : list chunk_file) :
  license_count <$> (descriptor_of <$> cs)
  = (λ g, Z.of_nat (length g)) <$> (licenses <$> cs).
Proof. by rewrite <- !list_fmap_compose. Qed.

(** * The claims *)

(** C1.  The round trip at a chunk size of 10^400, on the example document
    with its three licenses.  The quotient [3 / 10^400] is [0.0] in binary64,
    so [math.ceil] gives [num_chunks = 0]: the loop over [range(num_chunks)]
    does not run, the only file written is an index without chunks, and
    [load_split_matrix] returns an empty mapping.  The three entries of the
    document are lost, where the round trip promises them back for every
    chunk size of at least one. *)
Theorem round_trip_at_huge_chunk_size :
  1 ≤ huge_chunk_size ∧
  disk example_world !! "in.json" = Some (Json (JObject example_data)) ∧
  NoDup (dict_keys example_compat) ∧
  math_ceil_div 3 huge_chunk_size = Returned 0 ∧
  (∃ idx, trace huge_split_world = [index_write "out" idx] ∧ chunks idx = []) ∧
  ∃ doc,
    load_split_matrix "out" huge_split_world = (huge_split_world, Returned doc) ∧
    doc_compatibility doc = [] ∧
    dict_get "MIT" example_compat = Some (JInt 1) ∧
    dict_get "MIT" (doc_compatibility doc) = None.
Proof.
  split_and!.
  - by vm_compute.
  - reflexivity.
  - compute_done.
  - by vm_compute.
  - exists (IndexFile (JString "2.0") JNull 3 huge_chunk_size 0 []).
    split; [by vm_compute | reflexivity].
  - exists (Document (JString "2.0") JNull (JInt 3) []).
    split_and!; [by vm_compute | reflexivity..].
Qed.

(** C2.  The partition at a chunk size of 10^400, on the same document: no
    chunk file is written, the index records three licenses and no chunk,
    and so every key of the document is left out of the partition, where
    partition completeness promises that none is. *)
Theorem partition_at_huge_chunk_size :
  ∃ idx,
    trace huge_split_world = [index_write "out" idx] ∧
    index_total_licenses idx = 3 ∧
    index_num_chunks idx = 0 ∧
    chunks idx = [] ∧
    sorted (dict_keys example_compat) = ["Apache-2.0"; "GPL-3.0"; "MIT"] ∧
    ∀ c, chunk_write "out" c ∉ trace huge_split_world.
Proof.
  assert (Htr : trace huge_split_world
                = [index_write "out" (IndexFile (JString "2.0") JNull 3 huge_chunk_size 0 [])])
    by (by vm_compute).
  eexists. split_and!; [exact Htr | reflexivity.. |].
  intros c. rewrite Htr. intros Hc%list_elem_of_singleton.
  apply (f_equal event_path) in Hc. unfold chunk_write, index_write in Hc.
  cbn [event_path] in Hc. by apply chunk_path_not_index in Hc.
Qed.

(** C3.  The chunk count at a chunk size of 10^400, on the same document:
    the index records [num_chunks = 0] for [N = 3] licenses, where the
    ceiling of [N / k] is 1, and its [license_count] fields add up to 0 and
    not to [N]. *)
Theorem chunk_count_at_huge_chunk_size :
  ∃ idx,
    trace huge_split_world = [index_write "out" idx] ∧
    index_total_licenses idx = 3 ∧
    index_chunk_size idx = huge_chunk_size ∧
    index_num_chunks idx = 0 ∧
    (3 + huge_chunk_size - 1) `div` huge_chunk_size = 1 ∧
    foldr Z.add 0 (license_count <$> chunks idx) = 0.
Proof.
  exists (IndexFile (JString "2.0") JNull 3 huge_chunk_size 0 []).
  split_and!; [by vm_compute | reflexivity.. | by vm_compute | reflexivity].
Qed.

(** C4.  Determinism: the chunk boundaries and the [start_license],
    [end_license] of every descriptor depend only on the set of keys and the
    chunk size.  Two runs, from whatever worlds and on documents whose keys
    were inserted in whatever order, write the same boundaries and the same
    descriptors as soon as the documents have the same keys. *)
Theorem determinism (input1 input2 output_dir : string) (chunk_size : Z)
    (w1 w2 : world) (data1 data2 compat1 compat2 : dict) :
  disk w1 !! input1 = Some (Json (JObject data1)) →
  disk w2 !! input2 = Some (Json (JObject data2)) →
  py_dot_get (JObject data1) "compatibility" (JObject []) = Returned (JObject compat1) →
  py_dot_get (JObject data2) "compatibility" (JObject []) = Returned (JObject compat2) →
  NoDup (dict_keys compat1) →
  dict_keys compat1 ≡ₚ dict_keys compat2 →
  1 ≤ chunk_size →
  writable_dir w1 output_dir →
  writable_dir w2 output_dir →
  let w1' := (split_compatibility_matrix input1 output_dir chunk_size w1).1 in
  let w2' := (split_compatibility_matrix input2 output_dir chunk_size w2).1 in
  let boundaries c := (chunk_id c, start_index c, end_index c, licenses c) in
  ∃ cs1 cs2 idx1 idx2,
    trace w1' = trace w1 ++ (chunk_write output_dir <$> cs1) ++ [index_write output_dir idx1] ∧
    trace w2' = trace w2 ++ (chunk_write output_dir <$> cs2) ++ [index_write output_dir idx2] ∧
    boundaries <$> cs1 = boundaries <$> cs2 ∧
    chunks idx1 = chunks idx2 ∧
    index_num_chunks idx1 = index_num_chunks idx2.
Proof.
  intros Hin1 Hin2 Hc1 Hc2 Hnd1 Hp Hk Hw1 Hw2 w1' w2' boundaries.
  assert (Hnd2 : NoDup (dict_keys compat2)) by by rewrite <- Hp.
  exists (all_chunks compat1 chunk_size), (all_chunks compat2 chunk_size),
    (the_index data1 compat1 chunk_size), (the_index data2 compat2 chunk_size).
  assert (Hn : chunk_count compat1 chunk_size = chunk_count compat2 chunk_size).
  { unfold chunk_count. by rewrite Hp. }
  assert (Hb : boundaries <$> all_chunks compat1 chunk_size
               = boundaries <$> all_chunks compat2 chunk_size).
  { unfold all_chunks. rewrite <- !list_fmap_compose, Hn, (sorted_unique _ _ Hp). done. }
  assert (Hd : descriptor_of <$> all_chunks compat1 chunk_size
               = descriptor_of <$> all_chunks compat2 chunk_size).
  { unfold all_chunks. rewrite <- !list_fmap_compose, Hn, (sorted_unique _ _ Hp). done. }
  split_and!.
  - apply run_trace; (done || lia).
  - apply run_trace; (done || lia).
  - done.
  - done.
  - simpl. by rewrite Hp.
Qed.

(** C5.  Empty input: a document without keys gives [num_chunks = 0] and an
    index with no chunk descriptor; the index is the only file written; and
    loading the directory gives an empty compatibility mapping. *)
Theorem empty_document (input_file output_dir : string) (chunk_size : Z)
    (w : world) (data : dict) :
  disk w !! input_file = Some (Json (JObject data)) →
  py_dot_get (JObject data) "compatibility" (JObject []) = Returned (JObject []) →
  1 ≤ chunk_size →
  writable_dir w output_dir →
  let w' := (split_compatibility_matrix input_file output_dir chunk_size w).1 in
  ∃ idx doc,
    trace w' = trace w ++ [index_write output_dir idx] ∧
    disk w' !! path_join output_dir index_name = Some (Json (json_of_index idx)) ∧
    index_num_chunks idx = 0 ∧
    chunks idx = [] ∧
    load_split_matrix output_dir w' = (w', Returned doc) ∧
    doc_compatibility doc = [].
Proof.
  intros Hin Hc Hk Hw w'. unfold w'.
  erewrite split_run by (done || lia || apply NoDup_nil_2).
  assert (Hcs : all_chunks [] chunk_size = []).
  { apply length_zero_iff_nil. rewrite length_all_chunks. unfold chunk_count.
    change (Z.of_nat (length (dict_keys []))) with 0.
    by rewrite ceil_of_quotient_0. }
  exists (the_index data [] chunk_size). eexists. split_and!.
  - unfold run_events. by rewrite Hcs.
  - apply index_on_disk; (apply NoDup_nil_2 || lia).
  - unfold the_index. cbn [index_num_chunks].
    change (Z.of_nat (length (dict_keys []))) with 0. apply ceil_of_quotient_0.
  - unfold the_index. cbn [chunks]. by rewrite Hcs.
  - apply load_run; (apply NoDup_nil_2 || lia).
  - cbn [doc_compatibility]. by rewrite Hcs.
Qed.

(** C6.  On a document without keys the run ends in [ZeroDivisionError]:
    [num_chunks] is zero, the index (with [num_chunks = 0] and no chunk
    descriptor) is written, and the average chunk size printed afterwards
    divides by [num_chunks]. *)
Theorem empty_input_divides_by_zero (input_file output_dir : string) (chunk_size : Z)
    (w : world) (data : dict) :
  disk w !! input_file = Some (Json (JObject data)) →
  py_dot_get (JObject data) "compatibility" (JObject []) = Returned (JObject []) →
  chunk_size ≠ 0 →
  path_join output_dir index_name ∉ unwritable w →
  ∃ idx w',
    split_compatibility_matrix input_file output_dir chunk_size w
      = (w', Raised ZeroDivisionError) ∧
    trace w' = trace w ++ [index_write output_dir idx] ∧
    disk w' !! path_join output_dir index_name = Some (Json (json_of_index idx)) ∧
    index_num_chunks idx = 0 ∧
    chunks idx = [].
Proof.
  intros Hin Hc Hk Hw.
  unfold split_compatibility_matrix.
  erewrite bind_Returned; [|by apply read_json_ok].
  simpl in Hc. injection Hc as Hc.
  rewrite !bind_lift. simpl. rewrite !bind_lift, Hc. simpl.
  erewrite bind_Returned; [|reflexivity].
  unfold math_ceil_div. rewrite decide_False by done. rewrite bind_lift.
  change (sorted []) with (@nil string). simpl length.
  change (Z.of_nat 0) with 0. rewrite ceil_of_quotient_0. simpl.
  erewrite bind_Returned; [|reflexivity].
  erewrite bind_Returned; [|by apply write_json_ok].
  set (w' := record w _).
  assert (Hin' : is_Some (disk w' !! input_file)).
  { unfold w'. simpl. destruct (decide (path_join output_dir index_name = input_file)) as [->|].
    - rewrite lookup_insert_eq. eauto.
    - rewrite lookup_insert_ne by done. rewrite Hin. eauto. }
  destruct Hin' as [c Hin'].
  erewrite bind_Returned; [|by unfold getsize; rewrite Hin'].
  rewrite bind_lift. unfold true_div at 1. rewrite decide_False by lia.
  erewrite bind_Returned; [|reflexivity].
  rewrite bind_lift. unfold true_div at 1. rewrite decide_False by lia.
  eexists _, w'. split_and!; [done|done| |done|done].
  unfold w'. simpl. apply lookup_insert_eq.
Qed.

(** C7.  Malformed input: the splitter fails with an error of the
    [MalformedInputError] kind, before writing anything, when the input file
    is not valid JSON, when its [compatibility] field is present but is not a
    mapping, and also when the document itself is not a mapping. *)
Theorem malformed_input_fails (input_file output_dir : string) (chunk_size : Z)
    (w : world) (c : content) :
  disk w !! input_file = Some c →
  malformed_input c →
  ∃ e, split_compatibility_matrix input_file output_dir chunk_size w = (w, Raised e) ∧
       error_class e = Some MalformedInputError.
Proof.
  intros Hin Hc. unfold split_compatibility_matrix.
  destruct Hc as [|v Hv|data c Hget Hc].
  - exists JSONDecodeError. split; [|done].
    apply bind_Raised. unfold read_json. by rewrite Hin.
  - exists AttributeError. split; [|done].
    erewrite bind_Returned; [|by apply read_json_ok].
    rewrite bind_lift. destruct v; try done. by destruct (Hv items).
  - exists AttributeError. split; [|done].
    erewrite bind_Returned; [|by apply read_json_ok].
    rewrite !bind_lift. simpl. rewrite ?bind_lift, Hget. simpl.
    rewrite ?bind_lift. destruct c; try done. by destruct (Hc items).
Qed.

Lemma load_loop_fine (dir : string) (w : world) (before : list json) (acc : dict) :
  Forall (loads_fine dir w) before →
  ∃ acc', for_each before (λ chunk_info acc,
      chunk_file ← lift (py_getitem chunk_info "file");
      chunk_path ← lift (py_path_join dir chunk_file);
      chunk_data ← read_json chunk_path;
      chunk_compatibility ← lift (py_getitem chunk_data "compatibility");
      lift (py_update acc chunk_compatibility)) acc w = (w, Returned acc').
Proof.
  intros Hall. revert acc.
  induction Hall as [|info before (f & chunk & m & Hf & Hd & Hm) _ IH]; intros acc.
  - by eexists.
  - destruct (IH (dict_update acc m)) as [acc' Hacc']. exists acc'.
    rewrite for_each_cons, <- Hacc'. apply bind_Returned.
    rewrite Hf, bind_lift. simpl py_path_join. rewrite bind_lift.
    erewrite bind_Returned; [|by apply read_json_ok].
    by rewrite Hm, bind_lift.
Qed.

Lemma load_loop_missing (dir : string) (w : world) (before after : list json)
    (info : json) (acc : dict) :
  Forall (loads_fine dir w) before →
  refers_to_missing dir w info →
  for_each (before ++ info :: after) (λ chunk_info acc,
      chunk_file ← lift (py_getitem chunk_info "file");
      chunk_path ← lift (py_path_join dir chunk_file);
      chunk_data ← read_json chunk_path;
      chunk_compatibility ← lift (py_getitem chunk_data "compatibility");
      lift (py_update acc chunk_compatibility)) acc w
  = (w, Raised FileNotFoundError).
Proof.
  intros Hall (f & Hf & Hd). revert acc.
  induction Hall as [|info' before (f' & chunk & m & Hf' & Hd' & Hm) _ IH]; intros acc.
  - simpl app. rewrite for_each_cons. apply bind_Raised.
    rewrite Hf, bind_lift. simpl py_path_join. rewrite bind_lift.
    apply bind_Raised. unfold read_json. by rewrite Hd.
  - rewrite <- app_comm_cons, for_each_cons, <- (IH (dict_update acc m)).
    apply bind_Returned.
    rewrite Hf', bind_lift. simpl py_path_join. rewrite bind_lift.
    erewrite bind_Returned; [|by apply read_json_ok].
    by rewrite Hm, bind_lift.
Qed.

(** C8, as amended.  Loading fails with an error of the [NotFoundError] kind
    when the index file is missing.  It does so as well when the index has
    its four fields and lists a chunk whose file is missing, provided every
    chunk listed before that one is present and holds a [compatibility]
    mapping: the chunks are read in index order and the first failure
    decides the error. *)
Theorem missing_file_not_found (compatibility_dir : string) (w : world) :
  (disk w !! path_join compatibility_dir index_name = None →
   load_split_matrix compatibility_dir w = (w, Raised FileNotFoundError)) ∧
  (∀ index before info after,
     disk w !! path_join compatibility_dir index_name = Some (Json index) →
     index_lists index (before ++ info :: after) →
     Forall (loads_fine compatibility_dir w) before →
     refers_to_missing compatibility_dir w info →
     load_split_matrix compatibility_dir w = (w, Raised FileNotFoundError)) ∧
  error_class FileNotFoundError = Some NotFoundError.
Proof.
  split_and!; [| |done].
  - intros Hd. unfold load_split_matrix. apply bind_Raised.
    unfold read_json. by rewrite Hd.
  - intros index before info after Hd ([v Hv] & [g Hg] & [t Ht] & Hchunks) Hall Hmiss.
    unfold load_split_matrix.
    erewrite bind_Returned; [|by apply read_json_ok].
    rewrite Hv, Hg, Ht, Hchunks, !bind_lift.
    apply bind_Raised. by apply load_loop_missing.
Qed.

(** C9.  Write order: the files a run writes are chunk files followed, at
    most, by the index.  When the index is written it is the last write of
    the run, and every chunk file it describes has been written before it
    and is on disk at that moment; a run that returns has written it. *)
Theorem index_written_last (input_file output_dir : string) (chunk_size : Z)
    (w : world) :
  let r := split_compatibility_matrix input_file output_dir chunk_size w in
  ∃ evs,
    trace r.1 = trace w ++ evs ∧
    disk r.1 = apply_writes evs (disk w) ∧
    (∀ evs1 v evs2,
       evs = evs1 ++ Wrote (path_join output_dir index_name) v :: evs2 →
       evs2 = [] ∧
       ∃ idx, v = json_of_index idx ∧
         ∀ d, d ∈ chunks idx →
           path_join output_dir (file d) ∈ event_path <$> evs1 ∧
           is_Some (apply_writes evs1 (disk w) !! path_join output_dir (file d))) ∧
    (r.2 = Returned tt →
     ∃ evs0 idx, evs = evs0 ++ [Wrote (path_join output_dir index_name) (json_of_index idx)]).
Proof.
  intros r.
  destruct (split_writes input_file output_dir chunk_size w) as (evs & Hw & Hlast & Hret).
  exists evs. fold r in Hw, Hret. rewrite Hw. split_and!; [done..| |done].
  intros evs1 v evs2 Hevs. destruct (Hlast evs1 v evs2 Hevs) as (-> & idx & -> & Hfiles).
  split; [done|]. exists idx. split; [done|]. intros d Hd. split; [by apply Hfiles|].
  by apply apply_writes_written, Hfiles.
Qed.

(** ** The monitor *)

Lemma tame_ret {A} (a : A) : tame (mret a : Mon A).
Proof. done. Qed.

Lemma tame_bind {A B} (m : Mon A) (f : A → Mon B) :
  tame m → (∀ a, tame (f a)) → tame (m ≫= f).
Proof.
  intros Hm Hf. destruct m as [out [a| |]]; [|done..].
  unfold mbind, Mon_bind. specialize (Hf a). by destruct (f a).
Qed.

Lemma tame_print (env : monitor_env) (line : monitor_event) : tame (py_print env line).
Proof. unfold py_print. by destruct (console_accepts env line). Qed.

Lemma tame_dot_get (v : json) (k : string) (fallback : json) :
  tame (pure_step (py_dot_get v k fallback)).
Proof. by destruct v. Qed.

Lemma tame_prefix (v : json) (n : nat) : tame (pure_step (py_prefix v n)).
Proof. by destruct v. Qed.

Lemma tame_dir_exists (d : dir_state) : tame (pure_step (dir_exists d)).
Proof. by destruct d. Qed.

Lemma tame_open_and_load (env : monitor_env) :
  interrupt env ≠ Some DuringRead → tame (pure_step (open_and_load env)).
Proof.
  intros Hint. unfold open_and_load.
  destruct (interrupt env) as [[|]|]; [done|..];
    by destruct (progress_file env) as [| | |[|]].
Qed.

(** Short of an interrupt, whatever the [try] block raises is an
    [Exception]. *)
Lemma report_progress_tame (env : monitor_env) :
  interrupt env ≠ Some DuringRead → tame (report_progress env).
Proof.
  intros Hint. unfold report_progress.
  apply tame_bind; [by apply tame_open_and_load | intros progress].
  apply tame_bind; [apply tame_dot_get | intros total].
  apply tame_bind; [apply tame_dot_get | intros last_updated].
  apply tame_bind; [apply tame_prefix | intros shown].
  apply tame_bind; [apply tame_print | intros _].
  apply tame_bind; [apply tame_dir_exists | intros [|]]; [|apply tame_ret].
  destruct (py_int_ne _ _); [apply tame_print | apply tame_ret].
Qed.

Lemma try_report_returns (env : monitor_env) :
  interrupt env ≠ Some DuringRead →
  (∀ e, console_accepts env (PrintError e) = true) →
  ∃ out,
    try_except (report_progress env) (λ e, py_print env (PrintError e))
      = (out, Returned tt) ∧
    ∀ pre e, report_progress env = (pre, Raised e) → out = pre ++ [PrintError e].
Proof.
  intros Hint Hprint. pose proof (report_progress_tame env Hint) as Ht.
  destruct (report_progress env) as [pre [[]|e|]] eqn:Hr; simpl in Ht; [| |done].
  - exists pre. split; [done | by intros].
  - exists (pre ++ [PrintError e]). split.
    + unfold try_except, py_print. by rewrite Ht, Hprint.
    + by intros ? ? [= <- <-].
Qed.

Lemma file_exists_returns (f : file_state) :
  f ≠ Inaccessible → ∃ b, file_exists f = Returned b.
Proof. destruct f; by eauto. Qed.

Lemma monitor_iteration_returns (env : monitor_env) :
  interrupt env = None → outside_try_ok env →
  ∃ out, monitor_iteration env = (out ++ [Sleep 5], Returned tt) ∧
    ∀ pre e, file_exists (progress_file env) = Returned true →
      report_progress env = (pre, Raised e) → out = pre ++ [PrintError e].
Proof.
  intros Hint (Hfile & Hwait & Herr). unfold monitor_iteration, sleep. rewrite Hint.
  destruct (file_exists_returns _ Hfile) as [[|] ->].
  - destruct (try_report_returns env) as (out & Htry & Hcatch); [by rewrite Hint|done|].
    exists out. cbn [pure_step mbind Mon_bind app]. rewrite Htry.
    split; [done|]. intros pre e _. apply Hcatch.
  - exists [PrintWaiting]. cbn [pure_step mbind Mon_bind app].
    unfold py_print. rewrite Hwait. split; [done | by intros].
Qed.

(** When nothing fails outside the [try] block, a turn either completes or
    is cut short by the user's interrupt. *)
Lemma monitor_iteration_outcome (env : monitor_env) :
  outside_try_ok env →
  ∃ out, monitor_iteration env = (out, Returned tt) ∨
         monitor_iteration env = (out, Raised KeyboardInterrupt).
Proof.
  intros Hok. pose proof Hok as (Hfile & Hwait & Herr).
  destruct (interrupt env) as [[|]|] eqn:Hint.
  - unfold monitor_iteration, sleep. rewrite Hint.
    destruct (file_exists_returns _ Hfile) as [[|] ->];
      cbn [pure_step mbind Mon_bind app].
    + unfold report_progress, open_and_load. rewrite Hint.
      eexists. right. reflexivity.
    + unfold py_print. rewrite Hwait. eexists. left. reflexivity.
  - unfold monitor_iteration, sleep. rewrite Hint.
    destruct (file_exists_returns _ Hfile) as [[|] ->];
      cbn [pure_step mbind Mon_bind app].
    + destruct (try_report_returns env) as (out & -> & _); [by rewrite Hint|done|].
      eexists. right. reflexivity.
    + unfold py_print. rewrite Hwait. eexists. right. reflexivity.
  - destruct (monitor_iteration_returns env Hint Hok) as (out & -> & _).
    eexists. by left.
Qed.

(** Then nothing but that interrupt takes the loop out of its polling. *)
Lemma monitor_leaves_on_interrupt (envs : list monitor_env) :
  Forall outside_try_ok envs →
  (monitor_progress envs).2 = Polling ∨
  (monitor_progress envs).2 = Escaped KeyboardInterrupt.
Proof.
  induction 1 as [|env envs Hok _ IH]; [by left|].
  simpl. destruct (monitor_iteration_outcome env Hok) as [out [-> | ->]]; [|by right].
  by destruct (monitor_progress envs).
Qed.

(** C10, as amended.  Monitor recovery: in a turn of the polling loop in
    which [progress_file.exists()] returns, whatever the [try] block raises
    (the file cannot be opened, is not valid JSON, holds values of the wrong
    type, or its progress line cannot be printed) is caught in that turn and
    printed, provided the console takes the message; the turn then sleeps
    five seconds and the loop goes on to the next turn.  As long as that is
    so and the user does not interrupt, the loop is still polling after any
    number of turns.  The test [progress_file.exists()] is outside the [try]
    block: what it raises is not caught. *)
Theorem monitor_recovers (envs : list monitor_env) :
  Forall (λ env, interrupt env = None ∧ outside_try_ok env) envs →
  ∃ outs : list (list monitor_event),
    monitor_progress envs = (concat outs, Polling) ∧
    Forall2 (λ env out,
      monitor_iteration env = (out, Returned tt) ∧
      last out = Some (Sleep 5) ∧
      ∀ pre e, file_exists (progress_file env) = Returned true →
        report_progress env = (pre, Raised e) →
        out = pre ++ [PrintError e; Sleep 5]) envs outs.
Proof.
  induction 1 as [|env envs [Hint Hok] _ (outs & Hrun & Hall)].
  - exists []. split; [done | constructor].
  - destruct (monitor_iteration_returns env Hint Hok) as (out & Hit & Hcatch).
    exists ((out ++ [Sleep 5]) :: outs). split.
    + simpl. by rewrite Hit, Hrun.
    + constructor; [|done]. split_and!; [done | apply last_snoc |].
      intros pre e Hex Hr. rewrite (Hcatch pre e Hex Hr), <- app_assoc. done.
Qed.

(** * Instances and counterexamples *)

Lemma all_writable (w : world) (dir : string) :
  unwritable w = ∅ → writable_dir w dir.
Proof. intros H f. rewrite H. apply not_elem_of_empty. Qed.

Lemma determinism_witness :
  disk example_world !! "in.json" = Some (Json (JObject example_data)) ∧
  disk reordered_world !! "other.json" = Some (Json (JObject reordered_data)) ∧
  dict_keys example_compat ≡ₚ dict_keys reordered_compat ∧
  let w1' := (split_compatibility_matrix "in.json" "out" 2 example_world).1 in
  let w2' := (split_compatibility_matrix "other.json" "out" 2 reordered_world).1 in
  let boundaries c := (chunk_id c, start_index c, end_index c, licenses c) in
  ∃ cs1 cs2 idx1 idx2,
    trace w1' = trace example_world ++ (chunk_write "out" <$> cs1) ++ [index_write "out" idx1] ∧
    trace w2' = trace reordered_world ++ (chunk_write "out" <$> cs2) ++ [index_write "out" idx2] ∧
    boundaries <$> cs1 = boundaries <$> cs2 ∧
    chunks idx1 = chunks idx2 ∧
    index_num_chunks idx1 = index_num_chunks idx2.
Proof.
  assert (Hp : dict_keys example_compat ≡ₚ dict_keys reordered_compat) by compute_done.
  split_and!; [reflexivity | reflexivity | exact Hp |].
  apply (determinism "in.json" "other.json" "out" 2 example_world reordered_world
           example_data reordered_data example_compat reordered_compat);
    [reflexivity | reflexivity | reflexivity | reflexivity | compute_done | exact Hp
    | lia | by apply all_writable | by apply all_writable].
Defined.

Lemma empty_document_witness :
  disk empty_world !! "in.json" = Some (Json (JObject empty_data)) ∧
  writable_dir empty_world "out" ∧
  let w' := (split_compatibility_matrix "in.json" "out" 100 empty_world).1 in
  ∃ idx doc,
    trace w' = trace empty_world ++ [index_write "out" idx] ∧
    disk w' !! path_join "out" index_name = Some (Json (json_of_index idx)) ∧
    index_num_chunks idx = 0 ∧
    chunks idx = [] ∧
    load_split_matrix "out" w' = (w', Returned doc) ∧
    doc_compatibility doc = [].
Proof.
  assert (Hw : writable_dir empty_world "out") by (by apply all_writable).
  split_and!; [reflexivity | exact Hw |].
  apply (empty_document "in.json" "out" 100 empty_world empty_data);
    [reflexivity | reflexivity | lia | exact Hw].
Defined.

Lemma empty_input_divides_by_zero_witness :
  disk empty_world !! "in.json" = Some (Json (JObject empty_data)) ∧
  (path_join "out" index_name ∉ unwritable empty_world) ∧
  ∃ idx w',
    split_compatibility_matrix "in.json" "out" 100 empty_world
      = (w', Raised ZeroDivisionError) ∧
    trace w' = trace empty_world ++ [index_write "out" idx] ∧
    disk w' !! path_join "out" index_name = Some (Json (json_of_index idx)) ∧
    index_num_chunks idx = 0 ∧
    chunks idx = [].
Proof.
  assert (Hw : path_join "out" index_name ∉ unwritable empty_world)
    by apply not_elem_of_empty.
  split_and!; [reflexivity | exact Hw |].
  apply (empty_input_divides_by_zero "in.json" "out" 100 empty_world empty_data);
    [reflexivity | reflexivity | lia | exact Hw].
Defined.

Lemma malformed_input_fails_witness :
  disk mistyped_world !! "in.json" = Some (Json (JObject mistyped_data)) ∧
  malformed_input (Json (JObject mistyped_data)) ∧
  ∃ e, split_compatibility_matrix "in.json" "out" 100 mistyped_world
         = (mistyped_world, Raised e) ∧
       error_class e = Some MalformedInputError.
Proof.
  assert (Hm : malformed_input (Json (JObject mistyped_data))).
  { apply (compatibility_not_a_mapping mistyped_data (JArray [JString "MIT"]));
      [reflexivity | intros d; discriminate]. }
  split_and!; [reflexivity | exact Hm |].
  apply (malformed_input_fails "in.json" "out" 100 mistyped_world
           (Json (JObject mistyped_data))); [reflexivity | exact Hm].
Defined.

(** C8, as stated, fails.  In [torn_world] the index is on disk and lists two
    chunks; the file of the second is missing, the file of the first is
    there but is not JSON.  The loader stops at the first with
    [JSONDecodeError], which is not of the [NotFoundError] kind. *)
Lemma missing_chunk_counterexample :
  ∃ index info0 info1,
    disk torn_world !! path_join "out" index_name = Some (Json index) ∧
    py_getitem index "chunks" = Returned (JArray [info0; info1]) ∧
    py_getitem info1 "file" = Returned (JString "compatibility_chunk_001.json") ∧
    disk torn_world !! path_join "out" "compatibility_chunk_001.json" = None ∧
    load_split_matrix "out" torn_world = (torn_world, Raised JSONDecodeError) ∧
    error_class JSONDecodeError ≠ Some NotFoundError.
Proof.
  eexists _, _, _. split_and!; [reflexivity..|discriminate].
Qed.

Lemma missing_file_not_found_witness :
  disk example_world !! path_join "out" index_name = None ∧
  load_split_matrix "out" example_world = (example_world, Raised FileNotFoundError) ∧
  load_split_matrix "out" lost_chunk_world = (lost_chunk_world, Raised FileNotFoundError).
Proof.
  destruct (missing_file_not_found "out" example_world) as (Hindex & _ & _).
  destruct (missing_file_not_found "out" lost_chunk_world) as (_ & Hchunk & _).
  split_and!; [reflexivity | apply Hindex; reflexivity |].
  eapply (Hchunk _ [_] _ []).
  - reflexivity.
  - unfold index_lists. split_and!; [eexists; reflexivity..|reflexivity].
  - constructor; [|constructor]. eexists _, _, _. split_and!; reflexivity.
  - eexists. split; reflexivity.
Defined.

(** C10, as stated, fails.  In [inaccessible_turn] the [data] directory may
    not be searched: [progress_file.exists()] raises [PermissionError], an
    error on the progress file that no [try] block surrounds.  Nothing is
    printed, the turn does not sleep, the loop is left at once whatever the
    later turns hold, and the script ends with that exception. *)
Lemma monitor_recovers_counterexample :
  interrupt inaccessible_turn = None ∧
  file_exists (progress_file inaccessible_turn) = Raised PermissionError ∧
  monitor_iteration inaccessible_turn = ([], Raised PermissionError) ∧
  monitor_progress (inaccessible_turn :: example_turns) = ([], Escaped PermissionError) ∧
  monitor_progress_main (inaccessible_turn :: example_turns) inaccessible_turn
    = ([], Crashed PermissionError).
Proof. split_and!; reflexivity. Qed.

Lemma any_line_ok (f : file_state) (d : dir_state) (i : option interrupt_point) :
  f ≠ Inaccessible → outside_try_ok (MonitorEnv f d any_line i).
Proof. intros Hf. by split_and!. Qed.

Lemma monitor_recovers_witness :
  Forall (λ env, interrupt env = None ∧ outside_try_ok env) example_turns ∧
  ∃ outs : list (list monitor_event),
    monitor_progress example_turns = (concat outs, Polling) ∧
    Forall2 (λ env out,
      monitor_iteration env = (out, Returned tt) ∧
      last out = Some (Sleep 5) ∧
      ∀ pre e, file_exists (progress_file env) = Returned true →
        report_progress env = (pre, Raised e) →
        out = pre ++ [PrintError e; Sleep 5]) example_turns outs.
Proof.
  assert (H : Forall (λ env, interrupt env = None ∧ outside_try_ok env) example_turns).
  { repeat constructor; discriminate. }
  split; [exact H | apply (monitor_recovers example_turns H)].
Defined.

(** What the monitor prints on these turns. *)
Example monitor_example :
  monitor_progress example_turns
  = ([PrintWaiting; Sleep 5;
      PrintError JSONDecodeError; Sleep 5;
      PrintError TypeError; Sleep 5;
      PrintProgress (JInt 10) (JString "2024-01-01T10:00:00"); PrintFiles 9; Sleep 5],
     Polling).
Proof. reflexivity. Qed.

(** The run of the design document's example. *)
Example split_example :
  (split_compatibility_matrix "in.json" "out" 2 example_world).2 = Returned tt ∧
  trace split_world
  = [chunk_write "out" (ChunkFile 0 0 2 ["Apache-2.0"; "GPL-3.0"]
                          [("Apache-2.0", JInt 2); ("GPL-3.0", JInt 3)]);
     chunk_write "out" (ChunkFile 1 2 3 ["MIT"] [("MIT", JInt 1)]);
     index_write "out"
       (IndexFile (JString "2.0") JNull 3 2 2
          [ChunkDescriptor 0 "compatibility_chunk_000.json"
             (Some "Apache-2.0") (Some "GPL-3.0") 2;
           ChunkDescriptor 1 "compatibility_chunk_001.json" (Some "MIT") (Some "MIT") 1])].
Proof. split; reflexivity. Qed.

(** * Further properties *)

(** ** Early failures of the splitter *)

Lemma split_reaches_loop (input_file dir : string) (k : Z) (w : world)
    (data compat : dict) :
  disk w !! input_file = Some (Json (JObject data)) →
  py_dot_get (JObject data) "compatibility" (JObject []) = Returned (JObject compat) →
  k ≠ 0 →
  let total := Z.of_nat (length (dict_keys compat)) in
  let num_chunks := ceil_of_quotient total k in
  split_compatibility_matrix input_file dir k w =
    (for_each (py_range num_chunks)
       (split_chunk dir (sorted (dict_keys compat)) (JObject compat) k total) []
     ≫= finish_run input_file dir
           (default (JString "1.0") (dict_get "version" data))
           (default JNull (dict_get "generated" data))
           total k num_chunks) w.
Proof.
  intros Hin Hc Hk total num_chunks.
  unfold split_compatibility_matrix.
  erewrite bind_Returned; [|by apply read_json_ok].
  simpl in Hc. injection Hc as Hc.
  rewrite !bind_lift. simpl. rewrite !bind_lift, Hc. simpl.
  erewrite bind_Returned; [|reflexivity].
  unfold math_ceil_div. rewrite decide_False by done. rewrite bind_lift.
  rewrite length_sorted. reflexivity.
Qed.

(** X1.  A missing input file makes the splitter fail with
    [FileNotFoundError] before it writes anything. *)
Theorem missing_input_fails (input_file output_dir : string) (chunk_size : Z)
    (w : world) :
  disk w !! input_file = None →
  split_compatibility_matrix input_file output_dir chunk_size w
    = (w, Raised FileNotFoundError) ∧
  error_class FileNotFoundError = Some NotFoundError.
Proof.
  intros Hin. split; [|done]. unfold split_compatibility_matrix.
  apply bind_Raised. unfold read_json. by rewrite Hin.
Qed.

Lemma missing_input_fails_witness :
  disk example_world !! "absent.json" = None ∧
  split_compatibility_matrix "absent.json" "out" 100 example_world
    = (example_world, Raised FileNotFoundError) ∧
  error_class FileNotFoundError = Some NotFoundError.
Proof.
  split; [reflexivity|].
  apply (missing_input_fails "absent.json" "out" 100 example_world). reflexivity.
Defined.

(** X2.  A chunk size of zero makes the splitter fail with
    [ZeroDivisionError] at [math.ceil(total_licenses / chunk_size)], on every
    well-formed document: when the output directory can be created and
    written to, the run gets past [mkdir] to the division and stops there,
    before it has opened any file for writing. *)
Theorem zero_chunk_size_fails (input_file output_dir : string) (w : world)
    (data compat : dict) :
  disk w !! input_file = Some (Json (JObject data)) →
  py_dot_get (JObject data) "compatibility" (JObject []) = Returned (JObject compat) →
  writable_dir w output_dir →
  split_compatibility_matrix input_file output_dir 0 w = (w, Raised ZeroDivisionError).
Proof.
  intros Hin Hc _. unfold split_compatibility_matrix.
  erewrite bind_Returned; [|by apply read_json_ok].
  simpl in Hc. injection Hc as Hc.
  rewrite !bind_lift. simpl. rewrite !bind_lift, Hc. simpl.
  erewrite bind_Returned; [|reflexivity].
  by rewrite bind_lift.
Qed.

Lemma zero_chunk_size_fails_witness :
  disk example_world !! "in.json" = Some (Json (JObject example_data)) ∧
  writable_dir example_world "out" ∧
  split_compatibility_matrix "in.json" "out" 0 example_world
    = (example_world, Raised ZeroDivisionError).
Proof.
  assert (Hw : writable_dir example_world "out") by (by apply all_writable).
  split_and!; [reflexivity | exact Hw |].
  apply (zero_chunk_size_fails "in.json" "out" example_world example_data example_compat);
    [reflexivity | reflexivity | exact Hw].
Defined.


(** X3.  A negative chunk size is not rejected: [num_chunks] is then zero or
    negative, the loop does not run and the only file written is an index
    without chunks, so that loading the directory gives an empty mapping
    whatever the document held.  The run returns when [num_chunks] is
    negative and ends in [ZeroDivisionError] when it is zero. *)
Theorem negative_chunk_size_writes_no_chunk (input_file output_dir : string)
    (chunk_size : Z) (w : world) (data compat : dict) :
  disk w !! input_file = Some (Json (JObject data)) →
  py_dot_get (JObject data) "compatibility" (JObject []) = Returned (JObject compat) →
  chunk_size < 0 →
  path_join output_dir index_name ∉ unwritable w →
  let N := Z.of_nat (length (dict_keys compat)) in
  let r := split_compatibility_matrix input_file output_dir chunk_size w in
  ∃ idx doc,
    trace r.1 = trace w ++ [index_write output_dir idx] ∧
    chunks idx = [] ∧
    index_total_licenses idx = N ∧
    index_num_chunks idx = - (N `div` (- chunk_size)) ∧
    r.2 = (if decide (N < - chunk_size) then Raised ZeroDivisionError else Returned tt) ∧
    load_split_matrix output_dir r.1 = (r.1, Returned doc) ∧
    doc_compatibility doc = [].
Proof.
  intros Hin Hc Hk Hw N r. unfold r.
  rewrite (split_reaches_loop _ _ _ _ _ _ Hin Hc) by lia. fold N.
  assert (Hn : ceil_of_quotient N chunk_size = - (N `div` (- chunk_size))).
  { pose proof underflow_scale_pos.
    rewrite ceil_of_quotient_exact by lia.
    f_equal. rewrite <- (Z.opp_involutive chunk_size) at 1.
    apply Z.div_opp_opp. lia. }
  assert (Hle : 0 ≤ N `div` (- chunk_size)) by (apply Z.div_pos; lia).
  rewrite Hn. unfold py_range.
  replace (Z.to_nat (- (N `div` (- chunk_size)))) with 0%nat by lia.
  erewrite bind_Returned; [|reflexivity].
  unfold finish_run.
  erewrite bind_Returned; [|by apply write_json_ok].
  set (idx := {| index_version := _ |}).
  change (Wrote _ (json_of_index idx)) with (index_write output_dir idx).
  set (w' := record w _).
  assert (Hin' : is_Some (disk w' !! input_file)).
  { unfold w', record. cbn [disk]. apply apply_writes_is_Some. rewrite Hin. eauto. }
  destruct Hin' as [c Hin'].
  erewrite bind_Returned; [|by unfold getsize; rewrite Hin'].
  rewrite bind_lift. unfold true_div at 1. rewrite decide_False by lia.
  erewrite bind_Returned; [|reflexivity].
  rewrite bind_lift. unfold true_div at 1. rewrite decide_False by lia.
  assert (Hload : load_split_matrix output_dir w'
                  = (w', Returned {| doc_version := index_version idx;
                                     doc_generated := index_generated idx;
                                     doc_total_licenses := JInt N;
                                     doc_compatibility := [] |})).
  { unfold load_split_matrix.
    erewrite bind_Returned; cycle 1.
    { apply read_json_ok. unfold w'. simpl. apply lookup_insert_eq. }
    destruct (index_fields idx) as (-> & -> & -> & ->).
    rewrite !bind_lift. reflexivity. }
  exists idx. eexists. simpl. split_and!; [done..| |exact Hload|done].
  unfold true_div. destruct (decide (N < - chunk_size)) as [Hlt|Hge].
  - rewrite decide_True; [done|]. rewrite Z.div_small by lia. done.
  - rewrite decide_False; [done|].
    assert (1 ≤ N `div` (- chunk_size)); [|lia].
    apply Z.div_le_lower_bound; lia.
Qed.

Lemma negative_chunk_size_writes_no_chunk_witness :
  disk example_world !! "in.json" = Some (Json (JObject example_data)) ∧
  -2 < 0 ∧
  ∃ idx doc,
    trace (split_compatibility_matrix "in.json" "out" (-2) example_world).1
      = trace example_world ++ [index_write "out" idx] ∧
    chunks idx = [] ∧
    index_total_licenses idx = 3 ∧
    (split_compatibility_matrix "in.json" "out" (-2) example_world).2 = Returned tt ∧
    load_split_matrix "out" (split_compatibility_matrix "in.json" "out" (-2) example_world).1
      = ((split_compatibility_matrix "in.json" "out" (-2) example_world).1, Returned doc) ∧
    doc_compatibility doc = [].
Proof.
  split_and!; [reflexivity | lia |].
  destruct (negative_chunk_size_writes_no_chunk "in.json" "out" (-2) example_world
              example_data example_compat)
    as (idx & doc & Htr & Hcs & Htot & _ & Hout & Hload & Hdoc);
    [reflexivity | reflexivity | lia | apply not_elem_of_empty |].
  exists idx, doc. split_and!; [exact Htr | exact Hcs | exact Htot | exact Hout | exact Hload | exact Hdoc].
Defined.


(** X27.  A chunk size of [N * 2^1075] or more, for a document with
    [N ≥ 1] licenses, is not rejected either: the binary64 quotient
    [N / chunk_size] is [0.0], so [num_chunks] is 0, the loop does not run,
    and the only file written is an index that records [N] licenses and no
    chunk.  The run then ends in [ZeroDivisionError], and loading the
    directory gives an empty mapping: every license of the document is
    dropped without an error that says so. *)
Theorem huge_chunk_size_writes_no_chunk (input_file output_dir : string)
    (chunk_size : Z) (w : world) (data compat : dict) :
  disk w !! input_file = Some (Json (JObject data)) →
  py_dot_get (JObject data) "compatibility" (JObject []) = Returned (JObject compat) →
  dict_keys compat ≠ [] →
  Z.of_nat (length (dict_keys compat)) * 2 ^ 1075 ≤ chunk_size →
  path_join output_dir index_name ∉ unwritable w →
  let N := Z.of_nat (length (dict_keys compat)) in
  let r := split_compatibility_matrix input_file output_dir chunk_size w in
  ∃ idx doc,
    r.2 = Raised ZeroDivisionError ∧
    trace r.1 = trace w ++ [index_write output_dir idx] ∧
    chunks idx = [] ∧
    index_total_licenses idx = N ∧
    index_num_chunks idx = 0 ∧
    load_split_matrix output_dir r.1 = (r.1, Returned doc) ∧
    doc_compatibility doc = [].
Proof.
  intros Hin Hc Hne Hk Hw N r. unfold r.
  change (2 ^ 1075) with underflow_scale in Hk. fold N in Hk.
  assert (HN : 0 < N).
  { unfold N. destruct (dict_keys compat); [done | simpl; lia]. }
  pose proof underflow_scale_pos.
  rewrite (split_reaches_loop _ _ _ _ _ _ Hin Hc) by nia. fold N.
  rewrite (ceil_of_quotient_underflow N chunk_size HN Hk).
  change (py_range 0) with (@nil Z).
  erewrite bind_Returned; [|reflexivity].
  unfold finish_run.
  erewrite bind_Returned; [|by apply write_json_ok].
  set (idx := {| index_version := _ |}).
  change (Wrote _ (json_of_index idx)) with (index_write output_dir idx).
  set (w' := record w _).
  assert (Hin' : is_Some (disk w' !! input_file)).
  { unfold w', record. cbn [disk]. apply apply_writes_is_Some. rewrite Hin. eauto. }
  destruct Hin' as [c Hin'].
  erewrite bind_Returned; [|by unfold getsize; rewrite Hin'].
  rewrite bind_lift. unfold true_div at 1. rewrite decide_False by lia.
  erewrite bind_Returned; [|reflexivity].
  rewrite bind_lift. unfold true_div at 1. rewrite decide_False by lia.
  assert (Hload : load_split_matrix output_dir w'
                  = (w', Returned {| doc_version := index_version idx;
                                     doc_generated := index_generated idx;
                                     doc_total_licenses := JInt N;
                                     doc_compatibility := [] |})).
  { unfold load_split_matrix.
    erewrite bind_Returned; cycle 1.
    { apply read_json_ok. unfold w'. simpl. apply lookup_insert_eq. }
    destruct (index_fields idx) as (-> & -> & -> & ->).
    rewrite !bind_lift. reflexivity. }
  exists idx. eexists. simpl. split_and!; [done..|exact Hload|done].
Qed.

Lemma huge_chunk_size_writes_no_chunk_witness :
  disk example_world !! "in.json" = Some (Json (JObject example_data)) ∧
  3 * 2 ^ 1075 ≤ 3 * 2 ^ 1075 ∧
  ∃ idx doc,
    (split_compatibility_matrix "in.json" "out" (3 * 2 ^ 1075) example_world).2
      = Raised ZeroDivisionError ∧
    trace (split_compatibility_matrix "in.json" "out" (3 * 2 ^ 1075) example_world).1
      = trace example_world ++ [index_write "out" idx] ∧
    chunks idx = [] ∧
    index_total_licenses idx = 3 ∧
    index_num_chunks idx = 0 ∧
    load_split_matrix "out"
        (split_compatibility_matrix "in.json" "out" (3 * 2 ^ 1075) example_world).1
      = ((split_compatibility_matrix "in.json" "out" (3 * 2 ^ 1075) example_world).1,
         Returned doc) ∧
    doc_compatibility doc = [].
Proof.
  split_and!; [reflexivity | lia |].
  apply (huge_chunk_size_writes_no_chunk "in.json" "out" (3 * 2 ^ 1075) example_world
           example_data example_compat);
    [reflexivity | reflexivity | discriminate | simpl; lia | apply not_elem_of_empty].
Defined.


(** ** What a run touches *)

Lemma split_writes_shape (input_file output_dir : string) (chunk_size : Z) (w : world) :
  ∃ evs,
    (split_compatibility_matrix input_file output_dir chunk_size w).1 = record w evs ∧
    Forall (λ ev, output_path output_dir (event_path ev)) evs.
Proof.
  remember (split_compatibility_matrix input_file output_dir chunk_size w) as r eqn:Hr.
  assert (Hnone : ∀ e : outcome unit, r = (w, e) →
            ∃ evs, r.1 = record w evs ∧
              Forall (λ ev, output_path output_dir (event_path ev)) evs).
  { intros e ->. exists []. split; [by rewrite record_nil | constructor]. }
  assert (Hchunks : ∀ evs, Forall (chunk_event output_dir) evs →
            Forall (λ ev, output_path output_dir (event_path ev)) evs).
  { intros evs Hevs. eapply Forall_impl; [exact Hevs|]. intros ev [i Hi]. right. eauto. }
  unfold split_compatibility_matrix in Hr. rewrite bind_unfold in Hr.
  unfold read_json at 1 in Hr.
  destruct (disk w !! input_file) as [[data|]|]; [|by eapply Hnone..].
  rewrite bind_lift in Hr.
  destruct (py_dot_get data "version" _) as [version| |]; [|by eapply Hnone..].
  rewrite bind_lift in Hr.
  destruct (py_dot_get data "generated" _) as [generated| |]; [|by eapply Hnone..].
  rewrite bind_lift in Hr.
  destruct (py_dot_get data "total_licenses" _) as [?| |]; [|by eapply Hnone..].
  rewrite bind_lift in Hr.
  destruct (py_dot_get data "compatibility" _) as [compat| |]; [|by eapply Hnone..].
  rewrite bind_lift in Hr.
  destruct (py_dot_keys compat) as [keys| |]; [|by eapply Hnone..].
  cbv zeta in Hr. erewrite bind_Returned in Hr; [|reflexivity].
  rewrite bind_lift in Hr.
  destruct (math_ceil_div _ chunk_size) as [num_chunks| |]; [|by eapply Hnone..].
  clear Hnone. rewrite bind_unfold in Hr.
  destruct (split_loop_trace output_dir (sorted keys) compat chunk_size
              (Z.of_nat (length (sorted keys))) (py_range num_chunks) [] w)
    as (evs & Hw & Hall & _).
  destruct (for_each (m:=M) _ _ _ w) as [w1 [ds| |]]; simpl in Hw; subst w1;
    [|subst r; exists evs; split; [done | by apply Hchunks]..].
  rewrite bind_unfold in Hr.
  match type of Hr with context [write_json ?p ?v] =>
    destruct (decide (p ∈ unwritable (record w evs))) as [Hu|Hu];
    [ unfold write_json in Hr; rewrite (decide_True _ _ Hu) in Hr
    | rewrite (write_json_ok p v _ Hu) in Hr ]
  end.
  { subst r. exists evs. split; [done | by apply Hchunks]. }
  rewrite record_app in Hr.
  match type of Hr with context [record w (evs ++ [?ev])] => exists (evs ++ [ev]) end.
  split.
  - subst r.
    match goal with |- (?m ?w').1 = _ => assert (Hs : stateless m); [|apply Hs] end.
    repeat first
      [ apply stateless_bind; [|intros ?]
      | apply stateless_getsize
      | apply stateless_lift
      | apply stateless_ret
      | apply stateless_for_each; intros ? ? ].
  - apply Forall_app. split; [by apply Hchunks|].
    constructor; [by left | constructor].
Qed.

(** X4.  The files a run opens for writing are chunk files and the index
    of its output directory, under the paths it builds with [os.path.join],
    and nothing else: whatever the input and however the run ends, every
    write it makes is one of those.  The run deletes nothing (chunk files
    left by an earlier run, with higher numbers, stay where they are) and
    protects nothing against writing. *)
Theorem split_touches_output_only (input_file output_dir : string) (chunk_size : Z)
    (w : world) :
  let w' := (split_compatibility_matrix input_file output_dir chunk_size w).1 in
  ∃ evs,
    trace w' = trace w ++ evs ∧
    Forall (λ ev, output_path output_dir (event_path ev)) evs ∧
    (∀ p, is_Some (disk w !! p) → is_Some (disk w' !! p)) ∧
    unwritable w' = unwritable w.
Proof.
  intros w'.
  destruct (split_writes_shape input_file output_dir chunk_size w) as (evs & Hw & Hall).
  exists evs. unfold w'. rewrite Hw. split_and!; [done | done | | done].
  intros p. simpl. apply apply_writes_is_Some.
Qed.

(** ** The loader *)

Lemma stateless_read_json (path : string) : stateless (read_json path).
Proof. intros w. unfold read_json. by destruct (disk w !! path) as [[]|]. Qed.

(** X5.  The loader only reads: whatever the directory holds, and whether
    it returns or fails, it leaves every file as it was and writes
    nothing. *)
Theorem load_is_read_only (compatibility_dir : string) (w : world) :
  (load_split_matrix compatibility_dir w).1 = w.
Proof.
  assert (Hs : stateless (load_split_matrix compatibility_dir)); [|apply Hs].
  unfold load_split_matrix.
  repeat first
    [ apply stateless_bind; [|intros ?]
    | apply stateless_read_json
    | apply stateless_lift
    | apply stateless_ret
    | apply stateless_for_each; intros ? ? ].
Qed.


(** ** Write failures *)

Section split_failure.
Variables (dir : string) (ids : list string) (compat : dict) (k total : Z).
Hypothesis k_pos : 0 < k.
Hypothesis total_len : total = Z.of_nat (length ids).
Hypothesis ids_keys : ids ⊆ dict_keys compat.
Hypothesis ids_nodup : NoDup ids.

Let body := split_chunk dir ids (JObject compat) k total.

Lemma split_chunk_entries (i : nat) :
  Z.of_nat i * k ≤ Z.of_nat (length ids) →
  for_each (py_slice ids (Z.of_nat i * k) (Z.min ((Z.of_nat i + 1) * k) total))
    (λ license_id acc,
       v ← py_getitem (JObject compat) license_id;
       mret (dict_set license_id v acc)) []
  = Returned (select compat (group (Z.to_nat k) ids i)).
Proof.
  intros Hi. rewrite total_len, py_slice_group by done.
  rewrite copy_entries; [done | | |].
  - etrans; [apply group_sub | done].
  - eapply sublist_NoDup; [done|]. unfold group.
    etrans; [apply sublist_take | apply sublist_drop].
  - intros id _. apply not_elem_of_nil.
Qed.

Lemma split_chunk_written (i : nat) (acc : list chunk_descriptor) (w : world) :
  Z.of_nat i * k ≤ Z.of_nat (length ids) →
  path_join dir (chunk_name (Z.of_nat i)) ∉ unwritable w →
  body (Z.of_nat i) acc w =
    (record w [chunk_write dir (nth_chunk ids compat k i)],
     Returned (acc ++ [descriptor_of (nth_chunk ids compat k i)])).
Proof.
  intros Hi Hw. unfold body, split_chunk.
  rewrite split_chunk_entries, bind_lift by done. cbv zeta.
  erewrite bind_Returned; [|by apply write_json_ok].
  rewrite total_len, py_slice_group by done. reflexivity.
Qed.

Lemma split_chunk_refused (i : nat) (acc : list chunk_descriptor) (w : world) :
  Z.of_nat i * k ≤ Z.of_nat (length ids) →
  path_join dir (chunk_name (Z.of_nat i)) ∈ unwritable w →
  body (Z.of_nat i) acc w = (w, Raised PermissionError).
Proof.
  intros Hi Hw. unfold body, split_chunk.
  rewrite split_chunk_entries, bind_lift by done. cbv zeta.
  apply bind_Raised. unfold write_json. by rewrite decide_True.
Qed.

Lemma split_loop_written (idxs : list nat) (acc : list chunk_descriptor) (w : world) :
  (∀ i, i ∈ idxs → Z.of_nat i * k ≤ Z.of_nat (length ids)) →
  (∀ i, i ∈ idxs → path_join dir (chunk_name (Z.of_nat i)) ∉ unwritable w) →
  for_each (Z.of_nat <$> idxs) body acc w =
    (record w (chunk_write dir <$> (nth_chunk ids compat k <$> idxs)),
     Returned (acc ++ (descriptor_of <$> (nth_chunk ids compat k <$> idxs)))).
Proof.
  revert acc w. induction idxs as [|i idxs IH]; intros acc w Hidx Hw.
  - simpl. by rewrite record_nil, app_nil_r.
  - rewrite fmap_cons, for_each_cons.
    erewrite bind_Returned;
      [|apply split_chunk_written; [apply Hidx | apply Hw]; left].
    rewrite IH; [| intros; apply Hidx; by right | intros; apply Hw; by right].
    rewrite record_app. simpl. by rewrite <- app_assoc.
Qed.

Lemma split_loop_refused (pre post : list nat) (j : nat)
    (acc : list chunk_descriptor) (w : world) :
  (∀ i, i ∈ pre ++ [j] → Z.of_nat i * k ≤ Z.of_nat (length ids)) →
  (∀ i, i ∈ pre → path_join dir (chunk_name (Z.of_nat i)) ∉ unwritable w) →
  path_join dir (chunk_name (Z.of_nat j)) ∈ unwritable w →
  for_each (Z.of_nat <$> (pre ++ j :: post)) body acc w =
    (record w (chunk_write dir <$> (nth_chunk ids compat k <$> pre)),
     Raised PermissionError).
Proof.
  revert acc w. induction pre as [|i pre IH]; intros acc w Hidx Hw Hj.
  - simpl app. rewrite fmap_cons, for_each_cons, record_nil.
    apply bind_Raised. apply split_chunk_refused; [|done]. apply Hidx. left.
  - rewrite <- app_comm_cons, fmap_cons, for_each_cons.
    erewrite bind_Returned;
      [|apply split_chunk_written; [apply Hidx | apply Hw]; left].
    rewrite IH; [| intros; apply Hidx; by right | intros; apply Hw; by right | done].
    by rewrite record_app.
Qed.
End split_failure.

Lemma all_chunks_take (compat : dict) (k : Z) (j : nat) :
  (j ≤ chunk_count compat k)%nat →
  nth_chunk (sorted (dict_keys compat)) compat k <$> seq 0 j
  = take j (all_chunks compat k).
Proof.
  intros Hj. unfold all_chunks. rewrite <- fmap_take. f_equal.
  rewrite take_seq. f_equal. lia.
Qed.

(** X6.  For a chunk size below 2^1075: when the file of chunk [j] cannot
    be written and those of the chunks before it can, the run fails with
    [PermissionError] at chunk [j]: it has written exactly the first [j]
    chunks, it has not touched the index, and nothing is rolled back. *)
Theorem chunk_write_failure (input_file output_dir : string) (chunk_size : Z)
    (w : world) (data compat : dict) (j : nat) :
  disk w !! input_file = Some (Json (JObject data)) →
  py_dot_get (JObject data) "compatibility" (JObject []) = Returned (JObject compat) →
  NoDup (dict_keys compat) →
  1 ≤ chunk_size →
  chunk_size < 2 ^ 1075 →
  Z.of_nat j * chunk_size < Z.of_nat (length (dict_keys compat)) →
  (∀ i, (i < j)%nat → path_join output_dir (chunk_name (Z.of_nat i)) ∉ unwritable w) →
  path_join output_dir (chunk_name (Z.of_nat j)) ∈ unwritable w →
  let r := split_compatibility_matrix input_file output_dir chunk_size w in
  r.2 = Raised PermissionError ∧
  ∃ cs,
    trace r.1 = trace w ++ (chunk_write output_dir <$> cs) ∧
    chunk_id <$> cs = py_range (Z.of_nat j) ∧
    concat (licenses <$> cs)
      = take (j * Z.to_nat chunk_size) (sorted (dict_keys compat)) ∧
    disk r.1 !! path_join output_dir index_name
      = disk w !! path_join output_dir index_name.
Proof.
  intros Hin Hc Hnd Hk Hs Hj Hpre Hbad r. unfold r.
  change (2 ^ 1075) with underflow_scale in Hs.
  rewrite (split_reaches_loop _ _ _ _ _ _ Hin Hc) by lia.
  pose proof (chunk_count_bounds compat chunk_size ltac:(lia) Hs) as Hb.
  assert (Hjn : (j < chunk_count compat chunk_size)%nat) by nia.
  unfold py_range. fold (chunk_count compat chunk_size).
  replace (seq 0 (chunk_count compat chunk_size))
    with (seq 0 j ++ j :: seq (S j) (chunk_count compat chunk_size - S j)); cycle 1.
  { change (j :: seq (S j) ?n) with (seq j (S n)).
    rewrite <- (Nat.add_0_l j) at 2. rewrite <- seq_app. f_equal. lia. }
  erewrite bind_Raised; cycle 1.
  { apply split_loop_refused; try done.
    - lia.
    - by rewrite length_sorted.
    - by rewrite sorted_Permutation.
    - by rewrite sorted_Permutation.
    - intros i Hi. rewrite length_sorted.
      assert (i ≤ j)%nat; [|nia].
      apply elem_of_app in Hi as [Hi%elem_of_seq|Hi%list_elem_of_singleton]; lia.
    - intros i Hi%elem_of_seq. apply Hpre. lia. }
  rewrite all_chunks_take by lia. simpl. split; [done|].
  exists (take j (all_chunks compat chunk_size)). split_and!.
  - done.
  - rewrite <- all_chunks_take by lia. rewrite <- list_fmap_compose.
    unfold py_range. by rewrite Nat2Z.id.
  - rewrite <- all_chunks_take by lia. rewrite <- list_fmap_compose.
    apply concat_groups.
  - apply apply_writes_other.
    intros (ev & Hp & (c & -> & _)%list_elem_of_fmap)%list_elem_of_fmap.
    simpl in Hp. symmetry in Hp. by apply chunk_path_not_index in Hp.
Qed.

Lemma chunk_write_failure_witness :
  disk locked_chunk_world !! "in.json" = Some (Json (JObject example_data)) ∧
  path_join "out" (chunk_name 1) ∈ unwritable locked_chunk_world ∧
  let r := split_compatibility_matrix "in.json" "out" 2 locked_chunk_world in
  r.2 = Raised PermissionError ∧
  ∃ cs,
    trace r.1 = trace locked_chunk_world ++ (chunk_write "out" <$> cs) ∧
    chunk_id <$> cs = py_range 1 ∧
    concat (licenses <$> cs) = take 2 (sorted (dict_keys example_compat)) ∧
    disk r.1 !! path_join "out" index_name
      = disk locked_chunk_world !! path_join "out" index_name.
Proof.
  assert (Hbad : path_join "out" (chunk_name 1) ∈ unwritable locked_chunk_world).
  { compute_done. }
  split_and!; [reflexivity | exact Hbad |].
  apply (chunk_write_failure "in.json" "out" 2 locked_chunk_world example_data
           example_compat 1);
    [reflexivity | reflexivity | compute_done | lia | reflexivity | simpl; lia
    | | exact Hbad].
  intros i Hi. assert (i = 0)%nat as -> by lia. compute_done.
Defined.

(** X7.  For a chunk size below 2^1075: when every chunk file can be
    written and the index cannot, the run fails with [PermissionError] after
    it has written all the chunks: the directory then holds the complete
    partition and no index of this run. *)
Theorem index_write_failure (input_file output_dir : string) (chunk_size : Z)
    (w : world) (data compat : dict) :
  disk w !! input_file = Some (Json (JObject data)) →
  py_dot_get (JObject data) "compatibility" (JObject []) = Returned (JObject compat) →
  NoDup (dict_keys compat) →
  1 ≤ chunk_size →
  chunk_size < 2 ^ 1075 →
  (∀ i, path_join output_dir (chunk_name i) ∉ unwritable w) →
  path_join output_dir index_name ∈ unwritable w →
  let r := split_compatibility_matrix input_file output_dir chunk_size w in
  r.2 = Raised PermissionError ∧
  ∃ cs,
    trace r.1 = trace w ++ (chunk_write output_dir <$> cs) ∧
    concat (licenses <$> cs) = sorted (dict_keys compat) ∧
    disk r.1 !! path_join output_dir index_name
      = disk w !! path_join output_dir index_name.
Proof.
  intros Hin Hc Hnd Hk Hs Hchunks Hbad r. unfold r.
  change (2 ^ 1075) with underflow_scale in Hs.
  rewrite (split_reaches_loop _ _ _ _ _ _ Hin Hc) by lia.
  unfold py_range. fold (chunk_count compat chunk_size).
  erewrite bind_Returned; cycle 1.
  { apply split_loop_written; try done.
    - lia.
    - by rewrite length_sorted.
    - by rewrite sorted_Permutation.
    - by rewrite sorted_Permutation.
    - intros i Hi. eapply chunk_index_bound; [|exact Hi]. lia. }
  fold (all_chunks compat chunk_size). unfold finish_run.
  erewrite bind_Raised; cycle 1.
  { unfold write_json. by rewrite decide_True. }
  simpl. split; [done|]. exists (all_chunks compat chunk_size). split_and!.
  - done.
  - apply concat_all_chunks; [lia | done].
  - apply apply_writes_other.
    intros (ev & Hp & (c & -> & _)%list_elem_of_fmap)%list_elem_of_fmap.
    simpl in Hp. symmetry in Hp. by apply chunk_path_not_index in Hp.
Qed.

Lemma index_write_failure_witness :
  disk locked_index_world !! "in.json" = Some (Json (JObject example_data)) ∧
  path_join "out" index_name ∈ unwritable locked_index_world ∧
  let r := split_compatibility_matrix "in.json" "out" 2 locked_index_world in
  r.2 = Raised PermissionError ∧
  ∃ cs,
    trace r.1 = trace locked_index_world ++ (chunk_write "out" <$> cs) ∧
    concat (licenses <$> cs) = sorted (dict_keys example_compat) ∧
    disk r.1 !! path_join "out" index_name
      = disk locked_index_world !! path_join "out" index_name.
Proof.
  assert (Hbad : path_join "out" index_name ∈ unwritable locked_index_world).
  { compute_done. }
  split_and!; [reflexivity | exact Hbad |].
  apply (index_write_failure "in.json" "out" 2 locked_index_world example_data
           example_compat);
    [reflexivity | reflexivity | compute_done | lia | reflexivity | | exact Hbad].
  intros i H. unfold locked_index_world in H. cbn [unwritable] in H.
  apply elem_of_singleton in H. by apply (chunk_path_not_index "out" i).
Defined.


(** ** The contents of the chunk files and of the index *)

Lemma select_cons (d : dict) (id : string) (ids : list string) :
  select d (id :: ids)
  = match dict_get id d with
    | Some v => (id, v) :: select d ids
    | None => select d ids
    end.
Proof. unfold select. simpl. by destruct (dict_get id d). Qed.

Lemma select_get (d : dict) (ids : list string) (k : string) :
  dict_get k (select d ids) = if decide (k ∈ ids) then dict_get k d else None.
Proof.
  induction ids as [|id ids IH]; [done|].
  rewrite select_cons.
  assert (Hin : k ≠ id → (k ∈ id :: ids ↔ k ∈ ids)).
  { intros Hne. rewrite elem_of_cons. split; [by intros [?|?] | by right]. }
  destruct (decide (k = id)) as [->|Hne].
  - rewrite (decide_True (P := id ∈ id :: ids)) by left.
    destruct (dict_get id d) as [v|] eqn:E.
    + simpl. by rewrite decide_True.
    + rewrite IH. by case_decide.
  - destruct (dict_get id d) as [v|].
    + simpl. rewrite decide_False by done. rewrite IH.
      destruct (decide (k ∈ ids)) as [Hk|Hk].
      * rewrite decide_True; [done | by apply Hin].
      * rewrite decide_False; [done | by rewrite Hin].
    + rewrite IH. destruct (decide (k ∈ ids)) as [Hk|Hk].
      * rewrite decide_True; [done | by apply Hin].
      * rewrite decide_False; [done | by rewrite Hin].
Qed.

(** X8.  Every chunk file of a run is consistent with itself and with the
    document: its [chunk_id] is its position, [start_index] and [end_index]
    delimit exactly its [licenses] in the sorted key list, its
    [compatibility] mapping has exactly those licenses as keys, in that
    order, each with the entry the document has for it; and the file is on
    disk under the name the index records for that position. *)
Theorem chunk_contents (input_file output_dir : string) (chunk_size : Z)
    (w : world) (data compat : dict) :
  disk w !! input_file = Some (Json (JObject data)) →
  py_dot_get (JObject data) "compatibility" (JObject []) = Returned (JObject compat) →
  NoDup (dict_keys compat) →
  1 ≤ chunk_size →
  writable_dir w output_dir →
  let w' := (split_compatibility_matrix input_file output_dir chunk_size w).1 in
  ∃ cs idx,
    trace w' = trace w ++ (chunk_write output_dir <$> cs) ++ [index_write output_dir idx] ∧
    ∀ (i : nat) c, cs !! i = Some c →
      chunk_id c = Z.of_nat i ∧
      start_index c = Z.of_nat i * chunk_size ∧
      end_index c = start_index c + Z.of_nat (length (licenses c)) ∧
      licenses c = take (length (licenses c))
                     (drop (Z.to_nat (start_index c)) (sorted (dict_keys compat))) ∧
      dict_keys (compatibility c) = licenses c ∧
      (∀ key, key ∈ licenses c →
         dict_get key (compatibility c) = dict_get key compat) ∧
      (∃ d, chunks idx !! i = Some d ∧
            desc_chunk_id d = chunk_id c ∧
            license_count d = Z.of_nat (length (licenses c)) ∧
            disk w' !! path_join output_dir (file d) = Some (Json (json_of_chunk c))).
Proof.
  intros Hin Hc Hnd Hk Hw w'.
  assert (Hk' : 0 < chunk_size) by lia.
  exists (all_chunks compat chunk_size), (the_index data compat chunk_size).
  split; [by apply run_trace|].
  intros i c Hlook. pose proof Hlook as [-> Hi]%lookup_all_chunks.
  pose proof (chunk_index_lt compat chunk_size i Hk' Hi) as Hb.
  set (ids := sorted (dict_keys compat)).
  assert (Hlen : length ids = length (dict_keys compat)) by apply length_sorted.
  assert (Hg : length (group (Z.to_nat chunk_size) ids i)
               = (Z.to_nat chunk_size `min` (length ids - i * Z.to_nat chunk_size))%nat)
    by apply length_group.
  split_and!.
  - done.
  - done.
  - simpl. rewrite Hg. nia.
  - simpl. unfold group at 1. rewrite Hg.
    replace (Z.to_nat (Z.of_nat i * chunk_size)) with (i * Z.to_nat chunk_size)%nat by lia.
    destruct (Nat.min_spec (Z.to_nat chunk_size) (length ids - i * Z.to_nat chunk_size))
      as [[_ ->]|[? ->]]; [done|].
    rewrite !take_ge; [done | rewrite length_drop; lia ..].
  - simpl. apply select_keys. etrans; [apply group_sub|].
    unfold ids. by rewrite sorted_Permutation.
  - intros key Hkey. simpl in *. rewrite select_get. by rewrite decide_True.
  - exists (descriptor_of (nth_chunk ids compat chunk_size i)). split_and!.
    + simpl. rewrite list_lookup_fmap, Hlook. done.
    + done.
    + done.
    + unfold w'. erewrite split_run by done. cbn [fst file descriptor_of].
      apply (chunk_on_disk output_dir chunk_size w data compat
               (nth_chunk ids compat chunk_size i)).
      by apply list_elem_of_lookup_2 in Hlook.
Qed.

Lemma chunk_contents_witness :
  disk example_world !! "in.json" = Some (Json (JObject example_data)) ∧
  writable_dir example_world "out" ∧
  let w' := (split_compatibility_matrix "in.json" "out" 2 example_world).1 in
  ∃ cs idx,
    trace w' = trace example_world ++ (chunk_write "out" <$> cs) ++ [index_write "out" idx] ∧
    ∀ (i : nat) c, cs !! i = Some c →
      chunk_id c = Z.of_nat i ∧
      dict_keys (compatibility c) = licenses c ∧
      (∀ key, key ∈ licenses c →
         dict_get key (compatibility c) = dict_get key example_compat).
Proof.
  assert (Hw : writable_dir example_world "out") by (by apply all_writable).
  split_and!; [reflexivity | exact Hw |].
  destruct (chunk_contents "in.json" "out" 2 example_world example_data example_compat)
    as (cs & idx & Htr & Hall);
    [reflexivity | reflexivity | compute_done | lia | exact Hw |].
  exists cs, idx. split; [exact Htr|].
  intros i c Hc. destruct (Hall i c Hc) as (Hid & _ & _ & _ & Hkeys & Hget & _).
  split_and!; [exact Hid | exact Hkeys | exact Hget].
Defined.


Lemma sorted_lookup_le (ids : list string) (p q : nat) (a b : string) :
  StronglySorted String.le ids →
  ids !! p = Some a → ids !! q = Some b → (p ≤ q)%nat → String.le a b.
Proof.
  intros Hs Ha Hb Hpq. destruct (decide (p = q)) as [->|Hne].
  - rewrite Ha in Hb. injection Hb as ->. reflexivity.
  - rewrite <- (take_drop_middle ids p a Ha) in Hs, Hb.
    apply StronglySorted_app_1_r in Hs. inversion Hs as [|? ? _ Hall]; subst.
    apply (proj1 (Forall_forall _ _) Hall).
    rewrite lookup_app_r in Hb by (rewrite length_take; lia).
    rewrite length_take_le in Hb by (apply lookup_lt_Some in Ha; lia).
    destruct (q - p)%nat as [|t] eqn:E; [lia|]. simpl in Hb.
    by apply list_elem_of_lookup_2 in Hb.
Qed.

Lemma sorted_lookup_le_inv (ids : list string) (p q : nat) (a b : string) :
  StronglySorted String.le ids → NoDup ids →
  ids !! p = Some a → ids !! q = Some b → String.le a b → (p ≤ q)%nat.
Proof.
  intros Hs Hnd Ha Hb Hab. destruct (decide (p ≤ q)%nat) as [|Hgt]; [done|].
  assert (Hba : String.le b a) by (eapply sorted_lookup_le; [done..|lia]).
  assert (a = b) as -> by (by apply (anti_symm String.le)).
  pose proof (NoDup_lookup _ _ _ _ Hnd Ha Hb). lia.
Qed.

Lemma group_lookup {A} (size : nat) (l : list A) (i t : nat) (x : A) :
  group size l i !! t = Some x ↔ l !! (i * size + t)%nat = Some x ∧ (t < size)%nat.
Proof. unfold group. by rewrite lookup_take_Some, lookup_drop. Qed.

Lemma group_range (ids : list string) (size i p : nat) (key : string) :
  NoDup ids → ids !! p = Some key →
  key ∈ group size ids i ↔ (i * size ≤ p < i * size + size)%nat.
Proof.
  intros Hnd Hp. rewrite list_elem_of_lookup. split.
  - intros [t [Ht ?]%group_lookup].
    pose proof (NoDup_lookup _ _ _ _ Hnd Hp Ht). lia.
  - intros Hr. exists (p - i * size)%nat. apply group_lookup.
    split; [|lia]. rewrite <- Hp. f_equal. lia.
Qed.

(** X9.  The index locates every license: the descriptor at each position
    carries the first and the last license of the chunk at that position,
    and a key of the document is in that chunk exactly when it lies between
    the two in lexicographic order.  The ranges of different chunks do not
    overlap. *)
Theorem index_locates_licenses (input_file output_dir : string) (chunk_size : Z)
    (w : world) (data compat : dict) :
  disk w !! input_file = Some (Json (JObject data)) →
  py_dot_get (JObject data) "compatibility" (JObject []) = Returned (JObject compat) →
  NoDup (dict_keys compat) →
  1 ≤ chunk_size →
  writable_dir w output_dir →
  let w' := (split_compatibility_matrix input_file output_dir chunk_size w).1 in
  ∃ cs idx,
    trace w' = trace w ++ (chunk_write output_dir <$> cs) ++ [index_write output_dir idx] ∧
    length (chunks idx) = length cs ∧
    ∀ (i : nat) c d, cs !! i = Some c → chunks idx !! i = Some d →
      ∃ s e,
        start_license d = Some s ∧ end_license d = Some e ∧
        head (licenses c) = Some s ∧ last (licenses c) = Some e ∧
        ∀ key, key ∈ dict_keys compat →
          (key ∈ licenses c ↔ String.le s key ∧ String.le key e).
Proof.
  intros Hin Hc Hnd Hk Hw w'.
  assert (Hk' : 0 < chunk_size) by lia.
  exists (all_chunks compat chunk_size), (the_index data compat chunk_size).
  split; [by apply run_trace|]. split; [simpl; by rewrite length_fmap|].
  intros i c d Hlook Hd. simpl in Hd. rewrite list_lookup_fmap, Hlook in Hd.
  injection Hd as <-.
  apply lookup_all_chunks in Hlook as [-> Hi].
  pose proof (chunk_index_lt compat chunk_size i Hk' Hi) as Hb.
  set (ids := sorted (dict_keys compat)).
  set (size := Z.to_nat chunk_size).
  assert (Hlen : length ids = length (dict_keys compat)) by apply length_sorted.
  assert (Hss : StronglySorted String.le ids).
  { apply Sorted_StronglySorted; [apply _|]. apply Sorted_merge_sort, _. }
  assert (Hnd' : NoDup ids) by (unfold ids; by rewrite sorted_Permutation).
  assert (Hlo : (i * size < length ids)%nat) by (unfold size; nia).
  set (g := group size ids i).
  assert (Hglen : length g = (size `min` (length ids - i * size))%nat)
    by apply length_group.
  assert (Hgpos : (0 < length g)%nat) by (unfold size in *; lia).
  destruct (lookup_lt_is_Some_2 g 0 Hgpos) as [s Hs].
  destruct (lookup_lt_is_Some_2 g (pred (length g)) ltac:(lia)) as [e He].
  exists s, e. cbn [start_license end_license descriptor_of licenses nth_chunk].
  fold size. fold g. rewrite head_lookup, last_lookup.
  split_and!; [done..|].
  apply group_lookup in Hs as [Hs _]. apply group_lookup in He as [He _].
  intros key Hkey.
  assert (Hkey' : key ∈ ids) by (unfold ids; by rewrite sorted_Permutation).
  apply list_elem_of_lookup in Hkey' as [p Hp].
  fold g in Hs, He. unfold g at 1.
  rewrite (group_range ids size i p key Hnd' Hp). split.
  - intros Hr. split.
    + eapply sorted_lookup_le; [done..|lia].
    + eapply sorted_lookup_le; [done..|].
      apply lookup_lt_Some in Hp. lia.
  - intros [Hsk Hke].
    pose proof (sorted_lookup_le_inv _ _ _ _ _ Hss Hnd' Hs Hp Hsk).
    pose proof (sorted_lookup_le_inv _ _ _ _ _ Hss Hnd' Hp He Hke). lia.
Qed.

Lemma index_locates_licenses_witness :
  disk example_world !! "in.json" = Some (Json (JObject example_data)) ∧
  writable_dir example_world "out" ∧
  let w' := (split_compatibility_matrix "in.json" "out" 2 example_world).1 in
  ∃ cs idx,
    trace w' = trace example_world ++ (chunk_write "out" <$> cs) ++ [index_write "out" idx] ∧
    length (chunks idx) = length cs ∧
    ∀ (i : nat) c d, cs !! i = Some c → chunks idx !! i = Some d →
      ∃ s e,
        start_license d = Some s ∧ end_license d = Some e ∧
        head (licenses c) = Some s ∧ last (licenses c) = Some e ∧
        ∀ key, key ∈ dict_keys example_compat →
          (key ∈ licenses c ↔ String.le s key ∧ String.le key e).
Proof.
  assert (Hw : writable_dir example_world "out") by (by apply all_writable).
  split_and!; [reflexivity | exact Hw |].
  apply (index_locates_licenses "in.json" "out" 2 example_world example_data example_compat);
    [reflexivity | reflexivity | compute_done | lia | exact Hw].
Defined.


(** ** Round trips and re-runs *)

(** X10.  What the round trip does to the other fields: the loaded document
    has the [version] of the original (["1.0"] when it has none) and its
    [generated] ([None] when it has none); its [total_licenses] is the
    number of keys of the compatibility mapping, whatever the original's
    [total_licenses] field said. *)
Theorem round_trip_metadata (input_file output_dir : string) (chunk_size : Z)
    (w : world) (data compat : dict) (version generated : json) :
  disk w !! input_file = Some (Json (JObject data)) →
  py_dot_get (JObject data) "compatibility" (JObject []) = Returned (JObject compat) →
  py_dot_get (JObject data) "version" (JString "1.0") = Returned version →
  py_dot_get (JObject data) "generated" JNull = Returned generated →
  NoDup (dict_keys compat) →
  1 ≤ chunk_size →
  writable_dir w output_dir →
  let w' := (split_compatibility_matrix input_file output_dir chunk_size w).1 in
  ∃ doc, load_split_matrix output_dir w' = (w', Returned doc) ∧
    doc_version doc = version ∧
    doc_generated doc = generated ∧
    doc_total_licenses doc = JInt (Z.of_nat (length (dict_keys compat))).
Proof.
  intros Hin Hc Hv Hg Hnd Hk Hw w'. unfold w'.
  erewrite split_run by (done || lia). simpl.
  eexists. split; [apply load_run; (done || lia)|].
  simpl in Hv, Hg. injection Hv as <-. injection Hg as <-. done.
Qed.

Lemma round_trip_metadata_witness :
  disk example_world !! "in.json" = Some (Json (JObject example_data)) ∧
  writable_dir example_world "out" ∧
  let w' := (split_compatibility_matrix "in.json" "out" 2 example_world).1 in
  ∃ doc, load_split_matrix "out" w' = (w', Returned doc) ∧
    doc_version doc = JString "2.0" ∧
    doc_generated doc = JNull ∧
    doc_total_licenses doc = JInt (Z.of_nat (length (dict_keys example_compat))).
Proof.
  assert (Hw : writable_dir example_world "out") by (by apply all_writable).
  split_and!; [reflexivity | exact Hw |].
  apply (round_trip_metadata "in.json" "out" 2 example_world example_data example_compat);
    [reflexivity | reflexivity | reflexivity | reflexivity | compute_done | lia | exact Hw].
Defined.

Lemma apply_writes_member (evs : list event) (p : string) :
  p ∈ event_path <$> evs → ∃ v, Wrote p v ∈ evs.
Proof.
  intros ([q v] & -> & Hin)%list_elem_of_fmap. by exists v.
Qed.

Lemma apply_writes_idemp (evs : list event) (m : gmap string content) :
  NoDup (event_path <$> evs) →
  apply_writes evs (apply_writes evs m) = apply_writes evs m.
Proof.
  intros Hnd. apply map_eq. intros p.
  destruct (decide (p ∈ event_path <$> evs)) as [Hp|Hp].
  - destruct (apply_writes_member evs p Hp) as [v Hv].
    by rewrite !(apply_writes_lookup evs _ p v Hnd Hv).
  - by rewrite (apply_writes_other evs _ p Hp).
Qed.





Lemma select_ext (d1 d2 : dict) (ids : list string) :
  (∀ k, dict_get k d1 = dict_get k d2) → select d1 ids = select d2 ids.
Proof.
  intros H. induction ids as [|id ids IH]; [done|].
  by rewrite !select_cons, H, IH.
Qed.

Lemma all_chunks_Permutation (compat1 compat2 : dict) (k : Z) :
  NoDup (dict_keys compat1) → compat1 ≡ₚ compat2 →
  all_chunks compat1 k = all_chunks compat2 k.
Proof.
  intros Hnd Hp.
  assert (Hkeys : dict_keys compat1 ≡ₚ dict_keys compat2)
    by (unfold dict_keys; by rewrite Hp).
  unfold all_chunks, chunk_count. rewrite (sorted_unique _ _ Hkeys), Hkeys.
  apply list_fmap_ext. intros _ i _. unfold nth_chunk. f_equal.
  apply select_ext. intros key. by apply dict_get_Permutation.
Qed.

(** X12.  The files written do not depend on the order in which the keys
    were inserted in the document: two documents with the same entries, the
    same [version] and the same [generated] give the same chunk files and
    the same index, byte for byte. *)
Theorem output_ignores_insertion_order (input1 input2 output_dir : string)
    (chunk_size : Z) (w1 w2 : world) (data1 data2 compat1 compat2 : dict) :
  disk w1 !! input1 = Some (Json (JObject data1)) →
  disk w2 !! input2 = Some (Json (JObject data2)) →
  py_dot_get (JObject data1) "compatibility" (JObject []) = Returned (JObject compat1) →
  py_dot_get (JObject data2) "compatibility" (JObject []) = Returned (JObject compat2) →
  dict_get "version" data1 = dict_get "version" data2 →
  dict_get "generated" data1 = dict_get "generated" data2 →
  NoDup (dict_keys compat1) →
  compat1 ≡ₚ compat2 →
  1 ≤ chunk_size →
  writable_dir w1 output_dir →
  writable_dir w2 output_dir →
  ∃ evs,
    trace (split_compatibility_matrix input1 output_dir chunk_size w1).1 = trace w1 ++ evs ∧
    trace (split_compatibility_matrix input2 output_dir chunk_size w2).1 = trace w2 ++ evs.
Proof.
  intros Hin1 Hin2 Hc1 Hc2 Hv Hg Hnd Hp Hk Hw1 Hw2.
  assert (Hnd2 : NoDup (dict_keys compat2)) by (unfold dict_keys in *; by rewrite <- Hp).
  exists (run_events output_dir data1 compat1 chunk_size).
  erewrite !split_run by (done || lia). split; [done|].
  cbn [fst trace record]. f_equal.
  unfold run_events, the_index.
  rewrite (all_chunks_Permutation compat1 compat2 chunk_size Hnd Hp), Hv, Hg.
  unfold dict_keys. by rewrite Hp.
Qed.

Lemma output_ignores_insertion_order_witness :
  disk example_world !! "in.json" = Some (Json (JObject example_data)) ∧
  disk reordered_world !! "other.json" = Some (Json (JObject reordered_data)) ∧
  example_compat ≡ₚ reordered_compat ∧
  ∃ evs,
    trace (split_compatibility_matrix "in.json" "out" 2 example_world).1
      = trace example_world ++ evs ∧
    trace (split_compatibility_matrix "other.json" "out" 2 reordered_world).1
      = trace reordered_world ++ evs.
Proof.
  assert (Hp : example_compat ≡ₚ reordered_compat).
  { unfold example_compat, reordered_compat.
    etrans; [apply perm_skip, Permutation_swap | apply Permutation_swap]. }
  split_and!; [reflexivity | reflexivity | exact Hp |].
  apply (output_ignores_insertion_order "in.json" "other.json" "out" 2
           example_world reordered_world example_data reordered_data
           example_compat reordered_compat);
    [reflexivity | reflexivity | reflexivity | reflexivity | reflexivity | reflexivity
    | compute_done | exact Hp | lia | by apply all_writable | by apply all_writable].
Defined.

(** X13.  The two extreme chunk sizes: with a chunk size of one every
    license gets a chunk of its own, and with a chunk size of at least the
    number of licenses and below 2^1075 (and at least one license) a single
    chunk holds all of them. *)
Theorem extreme_chunk_sizes (input_file output_dir : string) (chunk_size : Z)
    (w : world) (data compat : dict) :
  disk w !! input_file = Some (Json (JObject data)) →
  py_dot_get (JObject data) "compatibility" (JObject []) = Returned (JObject compat) →
  NoDup (dict_keys compat) →
  1 ≤ chunk_size →
  writable_dir w output_dir →
  let w' := (split_compatibility_matrix input_file output_dir chunk_size w).1 in
  ∃ cs idx,
    trace w' = trace w ++ (chunk_write output_dir <$> cs) ++ [index_write output_dir idx] ∧
    (chunk_size = 1 →
       licenses <$> cs = (λ key, [key]) <$> sorted (dict_keys compat)) ∧
    (Z.of_nat (length (dict_keys compat)) ≤ chunk_size → chunk_size < 2 ^ 1075 →
     dict_keys compat ≠ [] →
       ∃ c, cs = [c] ∧ licenses c = sorted (dict_keys compat) ∧
            index_num_chunks idx = 1).
Proof.
  intros Hin Hc Hnd Hk Hw w'.
  assert (Hk' : 0 < chunk_size) by lia.
  exists (all_chunks compat chunk_size), (the_index data compat chunk_size).
  split_and!; [by apply run_trace | |].
  - intros ->. rewrite licenses_all_chunks.
    pose proof (chunk_count_bounds compat 1 Hk' ltac:(reflexivity)) as Hb.
    assert (Hn : chunk_count compat 1 = length (sorted (dict_keys compat)))
      by (rewrite length_sorted; lia).
    rewrite Hn. change (Z.to_nat 1) with 1%nat.
    generalize (sorted (dict_keys compat)) as l. clear.
    induction l as [|x l IH] using rev_ind; [done|].
    rewrite length_app, Nat.add_1_r, seq_S, !fmap_app. simpl.
    f_equal.
    + rewrite <- IH. apply list_fmap_ext. intros j i [-> Hi]%lookup_seq.
      simpl. unfold group. rewrite Nat.mul_1_r, drop_app_le by lia.
      destruct (drop j l) eqn:E; [|done].
      apply drop_nil_inv in E. lia.
    + unfold group. by rewrite Nat.mul_1_r, drop_app_length.
  - intros HN Hs Hne. change (2 ^ 1075) with underflow_scale in Hs.
    pose proof (chunk_count_bounds compat chunk_size Hk' Hs) as Hb.
    assert (Hlen : length (dict_keys compat) ≠ 0%nat) by (by destruct (dict_keys compat)).
    assert (Hn : chunk_count compat chunk_size = 1%nat) by nia.
    exists (nth_chunk (sorted (dict_keys compat)) compat chunk_size 0).
    unfold all_chunks. rewrite Hn. split_and!; [done| |].
    + simpl. unfold group. simpl. apply take_ge. rewrite length_sorted. lia.
    + rewrite num_chunks_count by done. lia.
Qed.

Lemma extreme_chunk_sizes_witness :
  disk example_world !! "in.json" = Some (Json (JObject example_data)) ∧
  writable_dir example_world "out" ∧
  let w' := (split_compatibility_matrix "in.json" "out" 1 example_world).1 in
  ∃ cs idx,
    trace w' = trace example_world ++ (chunk_write "out" <$> cs) ++ [index_write "out" idx] ∧
    licenses <$> cs = (λ key, [key]) <$> sorted (dict_keys example_compat).
Proof.
  assert (Hw : writable_dir example_world "out") by (by apply all_writable).
  split_and!; [reflexivity | exact Hw |].
  destruct (extreme_chunk_sizes "in.json" "out" 1 example_world example_data example_compat)
    as (cs & idx & Htr & Hone & _);
    [reflexivity | reflexivity | compute_done | lia | exact Hw |].
  exists cs, idx. split; [exact Htr | apply Hone; reflexivity].
Defined.


(** ** The loader on arbitrary directories *)

Lemma dict_get_app (k : string) (d1 d2 : dict) :
  dict_get k (d1 ++ d2)
  = match dict_get k d1 with
    | Some v => Some v
    | None => dict_get k d2
    end.
Proof.
  induction d1 as [|[k' v'] d1 IH]; [done|].
  simpl. by case_decide.
Qed.

Lemma dict_get_set (k k' : string) (v : json) (d : dict) :
  dict_get k (dict_set k' v d) = if decide (k = k') then Some v else dict_get k d.
Proof.
  induction d as [|[k0 v0] d IH]; simpl.
  - done.
  - destruct (decide (k' = k0)) as [->|Hne]; simpl.
    + destruct (decide (k = k0)); done.
    + destruct (decide (k = k0)) as [->|].
      * by rewrite decide_False by done.
      * done.
Qed.

Lemma dict_get_update (k : string) (d other : dict) :
  dict_get k (dict_update d other) = dict_get k (reverse other ++ d).
Proof.
  unfold dict_update. revert d.
  induction other as [|[k' v'] other IH]; intros d; [done|].
  simpl. rewrite IH, reverse_cons, <- app_assoc, !dict_get_app. simpl.
  rewrite dict_get_set. destruct (dict_get k (reverse other)); [done|].
  by case_decide.
Qed.

Lemma dict_get_merge (k : string) (d : dict) (ms : list dict) :
  dict_get k (foldl dict_update d ms) = dict_get k (reverse (concat ms) ++ d).
Proof.
  revert d. induction ms as [|m ms IH]; intros d; [done|].
  simpl. rewrite IH, reverse_app, <- app_assoc, !dict_get_app.
  by rewrite dict_get_update, dict_get_app.
Qed.

Lemma load_loop_mappings (dir : string) (w : world) (infos : list json)
    (ms : list dict) (acc : dict) :
  Forall2 (holds_mapping dir w) infos ms →
  for_each infos (λ chunk_info acc,
      chunk_file ← lift (py_getitem chunk_info "file");
      chunk_path ← lift (py_path_join dir chunk_file);
      chunk_data ← read_json chunk_path;
      chunk_compatibility ← lift (py_getitem chunk_data "compatibility");
      lift (py_update acc chunk_compatibility)) acc w
  = (w, Returned (foldl dict_update acc ms)).
Proof.
  intros Hall. revert acc.
  induction Hall as [|info m infos ms (f & chunk & Hf & Hd & Hm) _ IH]; intros acc.
  - done.
  - rewrite for_each_cons. cbn [foldl]. rewrite <- IH. apply bind_Returned.
    rewrite Hf, bind_lift. simpl py_path_join. rewrite bind_lift.
    erewrite bind_Returned; [|by apply read_json_ok].
    by rewrite Hm, bind_lift.
Qed.

(** X14.  The loader merges the chunks in the order of the index and the
    last one wins: when the index has its fields and each chunk it lists
    holds a compatibility mapping, the loader returns, and the value it
    gives for a key is the one of the last entry for that key, taking the
    chunks in index order and the entries of a chunk in their order; a key
    in no chunk is absent.  Nothing checks that the chunks are disjoint. *)
Theorem load_last_wins (compatibility_dir : string) (w : world) (index : json)
    (infos : list json) (ms : list dict) :
  disk w !! path_join compatibility_dir index_name = Some (Json index) →
  index_lists index infos →
  Forall2 (holds_mapping compatibility_dir w) infos ms →
  ∃ doc, load_split_matrix compatibility_dir w = (w, Returned doc) ∧
    doc_compatibility doc = foldl dict_update [] ms ∧
    ∀ key, dict_get key (doc_compatibility doc) = dict_get key (reverse (concat ms)).
Proof.
  intros Hd ([v Hv] & [g Hg] & [t Ht] & Hchunks) Hall.
  unfold load_split_matrix.
  erewrite bind_Returned; [|by apply read_json_ok].
  rewrite Hv, Hg, Ht, Hchunks, !bind_lift.
  erewrite bind_Returned; [|by apply load_loop_mappings].
  eexists. split; [reflexivity|]. split; [done|].
  intros key. simpl. by rewrite dict_get_merge, app_nil_r.
Qed.

Lemma load_last_wins_witness :
  disk overlapping_world !! path_join "out" index_name = Some (Json overlapping_index) ∧
  ∃ doc, load_split_matrix "out" overlapping_world = (overlapping_world, Returned doc) ∧
    doc_compatibility doc = [("MIT", JInt 7); ("GPL-3.0", JInt 3)] ∧
    dict_get "MIT" (doc_compatibility doc) = Some (JInt 7).
Proof.
  split; [reflexivity|].
  destruct (load_last_wins "out" overlapping_world overlapping_index
              [JObject [("file", JString "a.json")]; JObject [("file", JString "b.json")]]
              [[("MIT", JInt 1); ("GPL-3.0", JInt 3)]; [("MIT", JInt 7)]])
    as (doc & Hload & Hdoc & Hget).
  - reflexivity.
  - unfold index_lists. split_and!; [eexists; reflexivity..|reflexivity].
  - repeat constructor; eexists _, _; split_and!; reflexivity.
  - exists doc. split_and!; [exact Hload | exact Hdoc |]. rewrite Hget. reflexivity.
Defined.


Lemma py_getitem_outcome (v : json) (k : string) :
  (∃ x, py_getitem v k = Returned x) ∨
  py_getitem v k = Raised KeyError ∨ py_getitem v k = Raised TypeError.
Proof.
  destruct v; simpl; try (by right; right).
  destruct (dict_get k items); [left; eauto | right; by left].
Qed.

Lemma py_iter_outcome (v : json) :
  (∃ l, py_iter v = Returned l) ∨ py_iter v = Raised TypeError.
Proof. destruct v; simpl; eauto. Qed.

(** X15.  A malformed index makes the loader fail with an error of the
    [MalformedInputError] kind before it opens any chunk file: invalid JSON
    gives [JSONDecodeError]; a missing [version], [generated],
    [total_licenses] or [chunks] field gives [KeyError], or [TypeError] when
    the index is not a mapping; a [chunks] value that cannot be iterated
    gives [TypeError]. *)
Theorem malformed_index_fails (compatibility_dir : string) (w : world) (c : content) :
  disk w !! path_join compatibility_dir index_name = Some c →
  malformed_index c →
  ∃ e, load_split_matrix compatibility_dir w = (w, Raised e) ∧
       error_class e = Some MalformedInputError.
Proof.
  intros Hd Hc. unfold load_split_matrix. destruct Hc as [|v field Hfield Hnone|v cs Hcs Hiter].
  - exists JSONDecodeError. split; [|done].
    apply bind_Raised. unfold read_json. by rewrite Hd.
  - erewrite bind_Returned; [|by apply read_json_ok].
    rewrite bind_lift.
    destruct (py_getitem_outcome v "version") as [[x1 E1]|[E1|E1]]; rewrite E1;
      [|by eexists..].
    rewrite bind_lift.
    destruct (py_getitem_outcome v "generated") as [[x2 E2]|[E2|E2]]; rewrite E2;
      [|by eexists..].
    rewrite bind_lift.
    destruct (py_getitem_outcome v "total_licenses") as [[x3 E3]|[E3|E3]]; rewrite E3;
      [|by eexists..].
    rewrite bind_lift.
    destruct (py_getitem_outcome v "chunks") as [[x4 E4]|[E4|E4]]; rewrite E4;
      [|by eexists..].
    exfalso.
    repeat (apply elem_of_cons in Hfield as [->|Hfield]; [by eapply Hnone|]).
    by apply elem_of_nil in Hfield.
  - erewrite bind_Returned; [|by apply read_json_ok].
    rewrite bind_lift.
    destruct (py_getitem_outcome v "version") as [[x1 E1]|[E1|E1]]; rewrite E1;
      [|by eexists..].
    rewrite bind_lift.
    destruct (py_getitem_outcome v "generated") as [[x2 E2]|[E2|E2]]; rewrite E2;
      [|by eexists..].
    rewrite bind_lift.
    destruct (py_getitem_outcome v "total_licenses") as [[x3 E3]|[E3|E3]]; rewrite E3;
      [|by eexists..].
    rewrite bind_lift, Hcs. simpl.
    destruct (py_iter_outcome cs) as [[l E]|E]; [by destruct (Hiter l)|].
    rewrite E. by eexists.
Qed.

Lemma malformed_index_fails_witness :
  disk truncated_world !! path_join "out" index_name = Some (Json truncated_index) ∧
  malformed_index (Json truncated_index) ∧
  ∃ e, load_split_matrix "out" truncated_world = (truncated_world, Raised e) ∧
       error_class e = Some MalformedInputError.
Proof.
  assert (Hm : malformed_index (Json truncated_index)).
  { apply (index_lacks_field truncated_index "chunks"); [compute_done|].
    intros x. discriminate. }
  split_and!; [reflexivity | exact Hm |].
  apply (malformed_index_fails "out" truncated_world (Json truncated_index));
    [reflexivity | exact Hm].
Defined.

(** ** The scripts *)

(** X16.  Run as a script on a well-formed document, the splitter verifies
    itself: after splitting with the default arguments it loads the result
    back and reports as many licenses as the document has keys.  On a
    document without licenses the script stops with [ZeroDivisionError] in
    the split and the verification does not run. *)
Theorem script_reports_license_count (w : world) (data compat : dict) :
  disk w !! "data/compatibility_matrix.json" = Some (Json (JObject data)) →
  py_dot_get (JObject data) "compatibility" (JObject []) = Returned (JObject compat) →
  NoDup (dict_keys compat) →
  writable_dir w "data/compatibility" →
  split_compatibility_matrix_main w
  = ((split_compatibility_matrix "data/compatibility_matrix.json"
        "data/compatibility" 100 w).1,
     if decide (dict_keys compat = []) then Raised ZeroDivisionError
     else Returned (Z.of_nat (length (dict_keys compat)))).
Proof.
  intros Hin Hc Hnd Hw. unfold split_compatibility_matrix_main.
  assert (Hs : 100 < underflow_scale) by reflexivity.
  rewrite bind_unfold. erewrite split_run by (done || lia). cbn [fst].
  pose proof (chunk_count_zero 100 compat ltac:(lia) Hs) as Hz.
  destruct (decide (dict_keys compat = [])) as [E|E].
  { rewrite decide_True by by apply Hz. done. }
  rewrite decide_False by (intros ?; by apply E, Hz).
  erewrite bind_Returned; [|by apply load_run_all].
  unfold mret, M_ret. cbn [doc_compatibility].
  pose proof (select_sorted compat Hnd) as Hp.
  rewrite (Permutation_length Hp). unfold dict_keys. by rewrite length_fmap.
Qed.

Lemma script_reports_license_count_witness :
  disk default_world !! "data/compatibility_matrix.json"
    = Some (Json (JObject example_data)) ∧
  writable_dir default_world "data/compatibility" ∧
  (split_compatibility_matrix_main default_world).2 = Returned 3.
Proof.
  assert (Hw : writable_dir default_world "data/compatibility") by (by apply all_writable).
  split_and!; [reflexivity | exact Hw |].
  rewrite (script_reports_license_count default_world example_data example_compat);
    [reflexivity | reflexivity | reflexivity | compute_done | exact Hw].
Defined.

(** X17.  Run as a script, when nothing fails outside the [try] block of
    its loop, the monitor leaves the loop only on the user's interrupt; it
    then prints that monitoring stopped, the console taking that line, and
    exits normally: no exception escapes the script. *)
Theorem monitor_script_exits_cleanly (envs : list monitor_env) (final : monitor_env) :
  Forall outside_try_ok envs →
  console_accepts final PrintStopped = true →
  (monitor_progress_main envs final).2 = Running ∨
  ((monitor_progress_main envs final).2 = Exited ∧
   last (monitor_progress_main envs final).1 = Some PrintStopped).
Proof.
  intros Hok Hstop. unfold monitor_progress_main.
  destruct (monitor_leaves_on_interrupt envs Hok) as [H|H];
    destruct (monitor_progress envs) as [out status]; simpl in H; subst.
  - by left.
  - right. unfold py_print. rewrite Hstop. cbn [emit fst snd].
    split; [done | apply last_snoc].
Qed.

Lemma monitor_script_exits_cleanly_witness :
  Forall outside_try_ok (example_turns ++ [interrupted_turn]) ∧
  (monitor_progress_main (example_turns ++ [interrupted_turn]) interrupted_turn).2
    = Exited ∧
  last (monitor_progress_main (example_turns ++ [interrupted_turn]) interrupted_turn).1
    = Some PrintStopped.
Proof.
  assert (Hok : Forall outside_try_ok (example_turns ++ [interrupted_turn])).
  { repeat constructor; discriminate. }
  split; [exact Hok|].
  destruct (monitor_script_exits_cleanly (example_turns ++ [interrupted_turn])
              interrupted_turn Hok eq_refl) as [H|H]; [discriminate H | exact H].
Defined.


(** ** File names *)

(** X18.  The files of a run never collide: for any number of chunks the
    chunk paths and the index path are pairwise different, whatever the
    output directory, beyond 999 chunks too. *)
Theorem output_paths_distinct (output_dir : string) (num_chunks : Z) :
  NoDup (path_join output_dir <$> (chunk_name <$> py_range num_chunks) ++ [index_name]).
Proof.
  rewrite fmap_app. apply NoDup_app. split_and!.
  - unfold py_range. rewrite <- !list_fmap_compose.
    apply NoDup_fmap_2_strong; [|apply NoDup_seq].
    intros i j _ _ H. simpl in H. apply chunk_path_inj in H; lia.
  - intros p (f & -> & (i & -> & _)%list_elem_of_fmap)%list_elem_of_fmap Hin.
    apply list_elem_of_singleton in Hin. by apply chunk_path_not_index in Hin.
  - apply NoDup_singleton.
Qed.

Lemma chunk_names_ascending (i : nat) :
  (i < 999)%nat →
  String.le (chunk_name (Z.of_nat i)) (chunk_name (Z.of_nat (S i))).
Proof.
  intros Hi.
  assert (Hall : Forall (λ i, String.le (chunk_name (Z.of_nat i))
                                (chunk_name (Z.of_nat (S i)))) (seq 0 999)).
  { apply (bool_decide_unpack _). vm_compute. exact I. }
  apply (proj1 (Forall_forall _ _) Hall). apply elem_of_seq. lia.
Qed.

(** X19.  Up to a thousand chunks the zero padding makes the file names sort
    like the chunk numbers: for [0 ≤ i < j < 1000] the name of chunk [i]
    comes strictly before the name of chunk [j] in lexicographic order, and
    every such name is 28 characters long. *)
Theorem chunk_names_sort_by_id (i j : Z) :
  0 ≤ i → i < j → j < 1000 →
  String.le (chunk_name i) (chunk_name j) ∧
  chunk_name i ≠ chunk_name j ∧
  String.length (chunk_name i) = 28%nat.
Proof.
  intros Hi Hij Hj. split_and!.
  - replace i with (Z.of_nat (Z.to_nat i)) by lia.
    replace j with (Z.of_nat (Z.to_nat i + S (Z.to_nat (j - i - 1)))) by lia.
    assert (Hb : (Z.to_nat i + S (Z.to_nat (j - i - 1)) ≤ 999)%nat) by lia.
    revert Hb. generalize (Z.to_nat (j - i - 1)) as d. generalize (Z.to_nat i) as a.
    clear. intros a d. induction d as [|d IH]; intros Hb.
    + rewrite Nat.add_1_r. apply chunk_names_ascending; lia.
    + etrans; [apply IH; lia|].
      replace (a + S (S d))%nat with (S (a + S d)) by lia.
      apply chunk_names_ascending; lia.
  - intros H. apply chunk_name_inj in H; lia.
  - assert (Hall : Forall (λ i, String.length (chunk_name (Z.of_nat i)) = 28%nat)
                     (seq 0 1000)).
    { apply (bool_decide_unpack _). vm_compute. exact I. }
    replace i with (Z.of_nat (Z.to_nat i)) by lia.
    apply (proj1 (Forall_forall _ _) Hall). apply elem_of_seq. lia.
Qed.

Lemma chunk_names_sort_by_id_witness :
  0 ≤ 9 ∧ 9 < 10 ∧ 10 < 1000 ∧
  String.le (chunk_name 9) (chunk_name 10) ∧
  String.length (chunk_name 9) = 28%nat.
Proof.
  destruct (chunk_names_sort_by_id 9 10) as (Hle & _ & Hlen); [lia | lia | lia |].
  split_and!; [lia | lia | lia | exact Hle | exact Hlen].
Defined.


(** ** What the monitor prints *)

Lemma py_print_ok (env : monitor_env) (line : monitor_event) :
  console_accepts env line = true → py_print env line = emit line.
Proof. intros H. unfold py_print. by rewrite H. Qed.

Lemma py_print_refused (env : monitor_env) (line : monitor_event) :
  console_accepts env line = false → py_print env line = ([], Raised ValueError).
Proof. intros H. unfold py_print. by rewrite H. Qed.

Lemma mon_bind_pure {A B} (o : outcome A) (f : A → Mon B) :
  pure_step o ≫= f
  = match o with
    | Returned a => f a
    | Raised e => ([], Raised e)
    | Unmodelled => ([], Unmodelled)
    end.
Proof. destruct o as [a| |]; [|done..]. unfold mbind, Mon_bind. simpl. by destruct (f a). Qed.

Lemma mon_bind_emit {B} (ev : monitor_event) (f : unit → Mon B) :
  emit ev ≫= f = (ev :: (f tt).1, (f tt).2).
Proof. unfold mbind, Mon_bind. simpl. by destruct (f tt). Qed.

(** The report of a turn that has read a record with a string
    [last_updated]. *)
Lemma report_progress_read (env : monitor_env) (d : dict) (total : json) (s : string) :
  interrupt env ≠ Some DuringRead →
  progress_file env = Readable (Json (JObject d)) →
  py_dot_get (JObject d) "total_processed" (JInt 0) = Returned total →
  py_dot_get (JObject d) "last_updated" (JString "Unknown") = Returned (JString s) →
  report_progress env
  = (py_print env (PrintProgress total (JString (take_chars 19 s)));;
     present ← pure_step (dir_exists (spdx_dir env));
     if present : bool then
       if py_int_ne (yaml_count (spdx_dir env)) total
       then py_print env (PrintFiles (yaml_count (spdx_dir env)))
       else mret tt
     else mret tt).
Proof.
  intros Hint Hfile Htotal Hlast. unfold report_progress.
  assert (Hopen : open_and_load env = Returned (JObject d)).
  { unfold open_and_load. rewrite Hfile. by destruct (interrupt env) as [[|]|]. }
  rewrite Hopen, mon_bind_pure. cbv beta iota.
  rewrite Htotal, mon_bind_pure. cbv beta iota.
  rewrite Hlast, !mon_bind_pure. done.
Qed.

Lemma turn_with_file (env : monitor_env) (f : file_state) :
  interrupt env = None → progress_file env = f →
  file_exists f = Returned true →
  monitor_iteration env
  = (try_except (report_progress env) (λ e, py_print env (PrintError e));;
     emit (Sleep 5)).
Proof.
  intros Hint Hfile Hex. unfold monitor_iteration, sleep.
  by rewrite Hint, Hfile, Hex, mon_bind_pure.
Qed.

(** X20.  A turn that reads a progress record with an integer
    [total_processed] and a string [last_updated], on a console that takes
    the lines of the report and with the license directory in reach, prints
    the progress line and then sleeps; in between it prints the number of
    [*.yaml] files exactly when the license directory exists and that number
    differs from [total_processed]. *)
Theorem monitor_flags_mismatch (env : monitor_env) (d : dict) (total : Z) (s : string) :
  interrupt env = None →
  progress_file env = Readable (Json (JObject d)) →
  py_dot_get (JObject d) "total_processed" (JInt 0) = Returned (JInt total) →
  py_dot_get (JObject d) "last_updated" (JString "Unknown") = Returned (JString s) →
  console_accepts env (PrintProgress (JInt total) (JString (take_chars 19 s))) = true →
  (∀ n, console_accepts env (PrintFiles n) = true) →
  spdx_dir env ≠ DirInaccessible →
  ∃ out,
    monitor_iteration env
      = (PrintProgress (JInt total) (JString (take_chars 19 s)) :: out ++ [Sleep 5],
         Returned tt) ∧
    (out = [] ∨ ∃ n, out = [PrintFiles n]) ∧
    ∀ n, PrintFiles n ∈ out ↔ spdx_dir env = Dir n ∧ n ≠ total.
Proof.
  intros Hint Hfile Htotal Hlast Hline Hfiles Hdir.
  rewrite (turn_with_file env _ Hint Hfile eq_refl).
  rewrite (report_progress_read env d (JInt total) s) by (done || by rewrite Hint).
  rewrite (py_print_ok env _ Hline), mon_bind_emit.
  destruct (spdx_dir env) as [| |n]; [|done|];
    cbn [dir_exists yaml_count]; rewrite mon_bind_pure.
  - exists []. split_and!; [done | by left |].
    intros n. split; [by intros ?%elem_of_nil | by intros [? _]].
  - cbn [py_int_ne]. destruct (decide (n = total)) as [->|Hne].
    + rewrite bool_decide_eq_true_2 by done. cbn [negb].
      exists []. split_and!; [done | by left |].
      intros n. split; [by intros ?%elem_of_nil | by intros [[= ->] ?]].
    + rewrite bool_decide_eq_false_2 by done. cbn [negb].
      rewrite py_print_ok by apply Hfiles.
      exists [PrintFiles n]. split_and!; [done | right; eauto |].
      intros n'. rewrite list_elem_of_singleton. split.
      * by intros [= ->].
      * by intros [[= ->] _].
Qed.

Lemma monitor_flags_mismatch_witness :
  interrupt mismatch_turn = None ∧
  ∃ out,
    monitor_iteration mismatch_turn
      = (PrintProgress (JInt 10) (JString (take_chars 19 "2024-01-01T10:00:00.123456"))
           :: out ++ [Sleep 5], Returned tt) ∧
    (PrintFiles 9 ∈ out ↔ spdx_dir mismatch_turn = Dir 9 ∧ 9 ≠ 10).
Proof.
  split; [reflexivity|].
  destruct (monitor_flags_mismatch mismatch_turn
              [("total_processed", JInt 10);
               ("last_updated", JString "2024-01-01T10:00:00.123456")]
              10 "2024-01-01T10:00:00.123456")
    as (out & Hit & _ & Hfiles);
    [reflexivity | reflexivity | reflexivity | reflexivity | reflexivity
    | reflexivity | discriminate |].
  exists out. split; [exact Hit | apply Hfiles].
Defined.

(** X26.  A failure inside the [try] block, once the record is read, puts
    the error message in the place of the rest of the report.  When the
    console refuses the progress line (a [last_updated] with a lone
    surrogate, on a strict UTF-8 stream), the turn prints the error and no
    file count; when the license directory is out of reach, the turn prints
    the progress line, then the [PermissionError] of [spdx_dir.exists()],
    and no file count.  Either way the turn sleeps five seconds and the loop
    goes on. *)
Theorem monitor_reports_failures_in_try (env : monitor_env) (d : dict)
    (total : json) (s : string) :
  interrupt env = None →
  progress_file env = Readable (Json (JObject d)) →
  py_dot_get (JObject d) "total_processed" (JInt 0) = Returned total →
  py_dot_get (JObject d) "last_updated" (JString "Unknown") = Returned (JString s) →
  (∀ e, console_accepts env (PrintError e) = true) →
  let line := PrintProgress total (JString (take_chars 19 s)) in
  (console_accepts env line = false →
   monitor_iteration env = ([PrintError ValueError; Sleep 5], Returned tt)) ∧
  (console_accepts env line = true → spdx_dir env = DirInaccessible →
   monitor_iteration env = ([line; PrintError PermissionError; Sleep 5], Returned tt)).
Proof.
  intros Hint Hfile Htotal Hlast Herr line.
  rewrite (turn_with_file env _ Hint Hfile eq_refl).
  rewrite (report_progress_read env d total s) by (done || by rewrite Hint).
  fold line. split.
  - intros Hline. rewrite (py_print_refused env _ Hline).
    cbn [mbind Mon_bind try_except is_Exception]. by rewrite py_print_ok by apply Herr.
  - intros Hline Hdir. rewrite (py_print_ok env _ Hline), mon_bind_emit, Hdir.
    cbn [dir_exists]. rewrite mon_bind_pure.
    cbn [fst snd try_except is_Exception]. by rewrite py_print_ok by apply Herr.
Qed.

Lemma monitor_reports_failures_in_try_witness :
  console_accepts unprintable_turn
    (PrintProgress (JInt 10) (JString "2024-01-01T10:00:00")) = false ∧
  monitor_iteration unprintable_turn = ([PrintError ValueError; Sleep 5], Returned tt) ∧
  spdx_dir unreachable_dir_turn = DirInaccessible ∧
  monitor_iteration unreachable_dir_turn
    = ([PrintProgress (JInt 10) (JString "2024-01-01T10:00:00");
        PrintError PermissionError; Sleep 5], Returned tt).
Proof.
  destruct (monitor_reports_failures_in_try unprintable_turn
              [("total_processed", JInt 10);
               ("last_updated", JString "2024-01-01T10:00:00.123456")]
              (JInt 10) "2024-01-01T10:00:00.123456")
    as [Hline _]; [reflexivity..|].
  destruct (monitor_reports_failures_in_try unreachable_dir_turn
              [("total_processed", JInt 10);
               ("last_updated", JString "2024-01-01T10:00:00.123456")]
              (JInt 10) "2024-01-01T10:00:00.123456")
    as [_ Hdir]; [reflexivity..|].
  split_and!; [reflexivity | apply Hline; reflexivity | reflexivity
              | apply Hdir; reflexivity].
Defined.






(** ** Key order after a round trip *)

(** X22.  The round trip sorts the document: for a chunk size from 1 up to
    2^1075, whatever the insertion order of the original, the mapping that
    the loader returns iterates over the license identifiers in ascending
    lexicographic order. *)
Theorem round_trip_sorts_keys (input_file output_dir : string) (chunk_size : Z)
    (w : world) (data compat : dict) :
  disk w !! input_file = Some (Json (JObject data)) →
  py_dot_get (JObject data) "compatibility" (JObject []) = Returned (JObject compat) →
  NoDup (dict_keys compat) →
  1 ≤ chunk_size →
  chunk_size < 2 ^ 1075 →
  writable_dir w output_dir →
  let w' := (split_compatibility_matrix input_file output_dir chunk_size w).1 in
  ∃ doc, load_split_matrix output_dir w' = (w', Returned doc) ∧
    dict_keys (doc_compatibility doc) = sorted (dict_keys compat) ∧
    Sorted String.le (dict_keys (doc_compatibility doc)).
Proof.
  intros Hin Hc Hnd Hk Hs Hw w'. unfold w'.
  erewrite split_run by (done || lia). cbn [fst].
  eexists. split; [apply load_run_all; (done || lia)|]. cbn [doc_compatibility].
  assert (Hkeys : dict_keys (select compat (sorted (dict_keys compat)))
                  = sorted (dict_keys compat)).
  { apply select_keys. by rewrite sorted_Permutation. }
  rewrite Hkeys. split; [done|]. apply Sorted_merge_sort, _.
Qed.

Lemma round_trip_sorts_keys_witness :
  disk example_world !! "in.json" = Some (Json (JObject example_data)) ∧
  writable_dir example_world "out" ∧
  let w' := (split_compatibility_matrix "in.json" "out" 2 example_world).1 in
  ∃ doc, load_split_matrix "out" w' = (w', Returned doc) ∧
    dict_keys (doc_compatibility doc) = sorted (dict_keys example_compat) ∧
    Sorted String.le (dict_keys (doc_compatibility doc)).
Proof.
  assert (Hw : writable_dir example_world "out") by (by apply all_writable).
  split_and!; [reflexivity | exact Hw |].
  apply (round_trip_sorts_keys "in.json" "out" 2 example_world example_data example_compat);
    [reflexivity | reflexivity | compute_done | lia | reflexivity | exact Hw].
Defined.


(** ** Chunk sizes that the quotient can carry *)

(** X23.  Round trip below 2^1075: on a document with unique license keys,
    for every chunk size from 1 up to (and not including) 2^1075, loading
    the directory that the splitter has written gives back the compatibility
    mapping with the same keys and the same values, whatever the insertion
    order of the keys was. *)
Theorem round_trip (input_file output_dir : string) (chunk_size : Z) (w : world)
    (data compat : dict) :
  disk w !! input_file = Some (Json (JObject data)) →
  py_dot_get (JObject data) "compatibility" (JObject []) = Returned (JObject compat) →
  NoDup (dict_keys compat) →
  1 ≤ chunk_size →
  chunk_size < 2 ^ 1075 →
  writable_dir w output_dir →
  let w' := (split_compatibility_matrix input_file output_dir chunk_size w).1 in
  ∃ doc, load_split_matrix output_dir w' = (w', Returned doc) ∧
    doc_compatibility doc ≡ₚ compat ∧
    ∀ key, dict_get key (doc_compatibility doc) = dict_get key compat.
Proof.
  intros Hin Hc Hnd Hk Hs Hw w'. unfold w'.
  erewrite split_run by (done || lia). simpl.
  eexists. split; [apply load_run_all; (done || lia)|]. simpl.
  pose proof (select_sorted compat Hnd) as Hp. split; [done|].
  intros key. apply dict_get_Permutation; [|done].
  unfold dict_keys. rewrite Hp. done.
Qed.

Lemma round_trip_witness :
  disk example_world !! "in.json" = Some (Json (JObject example_data)) ∧
  NoDup (dict_keys example_compat) ∧
  writable_dir example_world "out" ∧
  let w' := (split_compatibility_matrix "in.json" "out" 2 example_world).1 in
  ∃ doc, load_split_matrix "out" w' = (w', Returned doc) ∧
    doc_compatibility doc ≡ₚ example_compat ∧
    ∀ key, dict_get key (doc_compatibility doc) = dict_get key example_compat.
Proof.
  assert (Hnd : NoDup (dict_keys example_compat)) by compute_done.
  assert (Hw : writable_dir example_world "out") by (by apply all_writable).
  split_and!; [reflexivity | exact Hnd | exact Hw |].
  apply (round_trip "in.json" "out" 2 example_world example_data example_compat);
    [reflexivity | reflexivity | exact Hnd | lia | reflexivity | exact Hw].
Defined.

(** X24.  Partition completeness below 2^1075: for every chunk size from 1
    up to 2^1075, the [licenses] sequences of the chunks written, taken in
    ascending [chunk_id] order, concatenate to the lexicographically sorted
    list of the document's keys; no key is in two chunks and none is left
    out. *)
Theorem partition_completeness (input_file output_dir : string) (chunk_size : Z)
    (w : world) (data compat : dict) :
  disk w !! input_file = Some (Json (JObject data)) →
  py_dot_get (JObject data) "compatibility" (JObject []) = Returned (JObject compat) →
  NoDup (dict_keys compat) →
  1 ≤ chunk_size →
  chunk_size < 2 ^ 1075 →
  writable_dir w output_dir →
  let w' := (split_compatibility_matrix input_file output_dir chunk_size w).1 in
  ∃ cs idx,
    trace w' = trace w ++ (chunk_write output_dir <$> cs) ++ [index_write output_dir idx] ∧
    chunk_id <$> cs = py_range (Z.of_nat (length cs)) ∧
    concat (licenses <$> cs) = sorted (dict_keys compat) ∧
    Sorted String.le (concat (licenses <$> cs)) ∧
    concat (licenses <$> cs) ≡ₚ dict_keys compat ∧
    NoDup (concat (licenses <$> cs)) ∧
    ∀ key, key ∈ dict_keys compat ↔ ∃ c, c ∈ cs ∧ key ∈ licenses c.
Proof.
  intros Hin Hc Hnd Hk Hs Hw w'.
  exists (all_chunks compat chunk_size), (the_index data compat chunk_size).
  assert (Hcat : concat (licenses <$> all_chunks compat chunk_size)
                 = sorted (dict_keys compat)) by (apply concat_all_chunks; (done || lia)).
  split_and!.
  - apply run_trace; (done || lia).
  - apply chunk_ids_all_chunks.
  - done.
  - rewrite Hcat. apply Sorted_merge_sort. apply _.
  - rewrite Hcat. apply sorted_Permutation.
  - rewrite Hcat, sorted_Permutation. done.
  - intros key. rewrite <- (sorted_Permutation (dict_keys compat)), <- Hcat.
    rewrite elem_of_concat. split.
    + intros (g & Hkey & (c & -> & ?)%list_elem_of_fmap). eauto.
    + intros (c & ? & ?). exists (licenses c). split; [done|].
      by apply list_elem_of_fmap_2.
Qed.

Lemma partition_completeness_witness :
  disk example_world !! "in.json" = Some (Json (JObject example_data)) ∧
  NoDup (dict_keys example_compat) ∧
  writable_dir example_world "out" ∧
  let w' := (split_compatibility_matrix "in.json" "out" 2 example_world).1 in
  ∃ cs idx,
    trace w' = trace example_world ++ (chunk_write "out" <$> cs) ++ [index_write "out" idx] ∧
    chunk_id <$> cs = py_range (Z.of_nat (length cs)) ∧
    concat (licenses <$> cs) = sorted (dict_keys example_compat) ∧
    Sorted String.le (concat (licenses <$> cs)) ∧
    concat (licenses <$> cs) ≡ₚ dict_keys example_compat ∧
    NoDup (concat (licenses <$> cs)) ∧
    ∀ key, key ∈ dict_keys example_compat ↔ ∃ c, c ∈ cs ∧ key ∈ licenses c.
Proof.
  assert (Hnd : NoDup (dict_keys example_compat)) by compute_done.
  assert (Hw : writable_dir example_world "out") by (by apply all_writable).
  split_and!; [reflexivity | exact Hnd | exact Hw |].
  apply (partition_completeness "in.json" "out" 2 example_world example_data example_compat);
    [reflexivity | reflexivity | exact Hnd | lia | reflexivity | exact Hw].
Defined.

(** X25.  Chunk-count arithmetic below 2^1075: with [N] keys and a chunk
    size [k] from 1 up to 2^1075 the index records [num_chunks = ceil(N / k)]
    and that many chunks are written; every chunk but the last holds [k]
    licenses, the last holds [N - k * (num_chunks - 1)], which is positive;
    for [N = 0] there is no chunk; and the [license_count] fields of the
    index add up to [N]. *)
Theorem chunk_count_arithmetic (input_file output_dir : string) (chunk_size : Z)
    (w : world) (data compat : dict) :
  disk w !! input_file = Some (Json (JObject data)) →
  py_dot_get (JObject data) "compatibility" (JObject []) = Returned (JObject compat) →
  NoDup (dict_keys compat) →
  1 ≤ chunk_size →
  chunk_size < 2 ^ 1075 →
  writable_dir w output_dir →
  let w' := (split_compatibility_matrix input_file output_dir chunk_size w).1 in
  let N := Z.of_nat (length (dict_keys compat)) in
  ∃ cs idx,
    trace w' = trace w ++ (chunk_write output_dir <$> cs) ++ [index_write output_dir idx] ∧
    chunk_size * (index_num_chunks idx - 1) < N ≤ chunk_size * index_num_chunks idx ∧
    index_num_chunks idx = (N + chunk_size - 1) `div` chunk_size ∧
    Z.of_nat (length cs) = index_num_chunks idx ∧
    Z.of_nat (length (chunks idx)) = index_num_chunks idx ∧
    (∀ i c, cs !! i = Some c → Z.of_nat i + 1 < index_num_chunks idx →
       Z.of_nat (length (licenses c)) = chunk_size) ∧
    (∀ c, last cs = Some c →
       Z.of_nat (length (licenses c)) = N - chunk_size * (index_num_chunks idx - 1) ∧
       0 < Z.of_nat (length (licenses c))) ∧
    (N = 0 → cs = []) ∧
    foldr Z.add 0 (license_count <$> chunks idx) = N.
Proof.
  intros Hin Hc Hnd Hk Hs Hw w' N.
  assert (Hk' : 0 < chunk_size) by lia.
  change (2 ^ 1075) with underflow_scale in Hs.
  exists (all_chunks compat chunk_size), (the_index data compat chunk_size).
  pose proof (chunk_count_bounds compat chunk_size Hk' Hs) as Hb. fold N in Hb.
  rewrite num_chunks_count by done.
  split_and!.
  - by apply run_trace.
  - lia.
  - lia.
  - rewrite <- num_chunks_count with (data := data) by done.
    cbn [index_num_chunks the_index]. fold N.
    rewrite ceil_of_quotient_exact by lia. by apply ceil_div_alt.
  - by rewrite length_all_chunks.
  - simpl. by rewrite length_fmap, length_all_chunks.
  - intros i c [-> Hi]%lookup_all_chunks Hlt.
    rewrite length_nth_chunk, length_sorted. unfold N in *. nia.
  - intros c Hlast. rewrite last_lookup, length_all_chunks in Hlast.
    apply lookup_all_chunks in Hlast as [-> Hi].
    rewrite length_nth_chunk, length_sorted. unfold N in *. nia.
  - intros HN. apply length_zero_iff_nil. rewrite length_all_chunks. nia.
  - simpl. rewrite license_counts, sum_lengths, concat_all_chunks by done.
    by rewrite length_sorted.
Qed.

Lemma chunk_count_arithmetic_witness :
  disk example_world !! "in.json" = Some (Json (JObject example_data)) ∧
  NoDup (dict_keys example_compat) ∧
  writable_dir example_world "out" ∧
  let w' := (split_compatibility_matrix "in.json" "out" 2 example_world).1 in
  ∃ cs idx,
    trace w' = trace example_world ++ (chunk_write "out" <$> cs) ++ [index_write "out" idx] ∧
    index_num_chunks idx = (3 + 2 - 1) `div` 2 ∧
    Z.of_nat (length cs) = index_num_chunks idx ∧
    foldr Z.add 0 (license_count <$> chunks idx) = 3.
Proof.
  assert (Hnd : NoDup (dict_keys example_compat)) by compute_done.
  assert (Hw : writable_dir example_world "out") by (by apply all_writable).
  split_and!; [reflexivity | exact Hnd | exact Hw |].
  destruct (chunk_count_arithmetic "in.json" "out" 2 example_world example_data
              example_compat) as (cs & idx & Htr & _ & Hn & Hcs & _ & _ & _ & _ & Hsum);
    [reflexivity | reflexivity | exact Hnd | lia | reflexivity | exact Hw |].
  exists cs, idx. split_and!; [exact Htr | exact Hn | exact Hcs | exact Hsum].
Defined.
